(** * Neural Hawkes process utilities: sampler, padder, loss and predictor

    A shallow embedding of [src/models/NeuralHawkesProcess/utils.py].

    Tensors are nested lists.  Tensor entries are rationals extended with
    the IEEE special values the code can produce by dividing by zero or
    taking [log 0]; rounding is not modelled.  The finite range of float32
    is modelled where a sum of inputs decides whether the code raises: the
    row totals of [create_unifrom_d].  Event types are int64 entries.
    Python exceptions are an explicit error result, and the two global
    random generators (torch's and numpy's) are a state that is threaded
    through the samplers. *)

From Stdlib Require Import ZArith QArith Qcanon List.
From stdpp Require Import base numbers list sorting.

Local Open Scope Qc_scope.

(** ** Tensor entries *)

Inductive scalar : Type :=
  | Fin (q : Qc)
  | PInf
  | NInf
  | NaN.

Global Instance scalar_eq_dec : EqDecision scalar.
Proof. solve_decision. Defined.

Definition zero : scalar := Fin 0.

Definition s_neg (x : scalar) : scalar :=
  match x with
  | Fin q => Fin (- q)
  | PInf => NInf
  | NInf => PInf
  | NaN => NaN
  end.

Definition s_add (x y : scalar) : scalar :=
  match x, y with
  | NaN, _ | _, NaN => NaN
  | Fin a, Fin b => Fin (a + b)
  | PInf, NInf | NInf, PInf => NaN
  | PInf, _ | _, PInf => PInf
  | NInf, _ | _, NInf => NInf
  end.

Definition s_sub (x y : scalar) : scalar := s_add x (s_neg y).

(** [inf_signed c] is the infinity whose sign is that of a finite factor
    compared with zero, and NaN when that factor is zero. *)
Definition inf_signed (c : comparison) (pos : bool) : scalar :=
  match c with
  | Eq => NaN
  | Gt => if pos then PInf else NInf
  | Lt => if pos then NInf else PInf
  end.

Definition s_mul (x y : scalar) : scalar :=
  match x, y with
  | NaN, _ | _, NaN => NaN
  | Fin a, Fin b => Fin (a * b)
  | Fin a, PInf | PInf, Fin a => inf_signed (a ?= 0) true
  | Fin a, NInf | NInf, Fin a => inf_signed (a ?= 0) false
  | PInf, PInf | NInf, NInf => PInf
  | PInf, NInf | NInf, PInf => NInf
  end.

(** Tensor division never raises: [0/0] is NaN and [x/0] an infinity. *)
Definition s_div (x y : scalar) : scalar :=
  match x, y with
  | NaN, _ | _, NaN => NaN
  | Fin a, Fin b =>
      if decide (b = 0) then inf_signed (a ?= 0) true else Fin (a / b)
  | Fin _, (PInf | NInf) => zero
  | PInf, Fin b => match b ?= 0 with Lt => NInf | _ => PInf end
  | NInf, Fin b => match b ?= 0 with Lt => PInf | _ => NInf end
  | (PInf | NInf), (PInf | NInf) => NaN
  end.

(** The order used by [torch.sort]: ascending, NaN after everything. *)
Definition s_leb (x y : scalar) : bool :=
  match x, y with
  | _, NaN => true
  | NaN, _ => false
  | NInf, _ => true
  | _, NInf => false
  | _, PInf => true
  | PInf, _ => false
  | Fin a, Fin b => bool_decide (a ≤ b)
  end.

Definition s_le (x y : scalar) : Prop := s_leb x y = true.

Global Instance s_le_dec : RelDecision s_le.
Proof. intros x y. unfold s_le. apply _. Defined.

Definition is_fin (x : scalar) : Prop :=
  match x with Fin _ => True | _ => False end.

(** A finite entry that is not negative. *)
Definition nonneg (x : scalar) : Prop :=
  match x with Fin q => 0 ≤ q | _ => False end.

Definition s_sum (l : list scalar) : scalar := foldl s_add zero l.

Definition of_nat (n : nat) : Qc := Qc_of_Z (Z.of_nat n).

(** ** The float32 range

    Under round-to-nearest a float32 result overflows to an infinity when
    its magnitude reaches [2^128 - 2^103], half a unit in the last place
    above the largest finite float32 [2^128 - 2^104]. *)
Definition f32_overflow : Qc := Qc_of_Z (2 ^ 128 - 2 ^ 103).

(** A finite entry inside the float32 range. *)
Definition in_f32 (x : scalar) : Prop :=
  match x with
  | Fin q => - f32_overflow < q ∧ q < f32_overflow
  | _ => False
  end.

(** The float32 result for an exact result [x]. *)
Definition f32 (x : scalar) : scalar :=
  match x with
  | Fin q =>
      if decide (f32_overflow ≤ q) then PInf
      else if decide (q ≤ - f32_overflow) then NInf else x
  | _ => x
  end.

(** [t.sum()] of a float32 vector, added up from the left.  Torch does not
    fix the order of the additions; for entries of one sign every order
    overflows on the same inputs. *)
Definition f32_sum (l : list scalar) : scalar :=
  foldl (λ acc x, f32 (s_add acc x)) zero l.

(** ** int64 entries *)

(** The int64 entry a Python integer becomes in an integer tensor: the
    value modulo [2^64], in [[-2^63, 2^63)]. *)
Definition int64 (z : Z) : Z := ((z + 2 ^ 63) `mod` 2 ^ 64 - 2 ^ 63)%Z.

(** ** Python exceptions *)

Inductive exn : Type :=
  | IndexError
  | RuntimeError
  | ZeroDivisionError.

Inductive res (A : Type) : Type :=
  | Ok (a : A)
  | Raise (e : exn).
Arguments Ok {A} a.
Arguments Raise {A} e.

Global Instance exn_eq_dec : EqDecision exn.
Proof. solve_decision. Defined.
Global Instance res_eq_dec {A} `{EqDecision A} : EqDecision (res A).
Proof. solve_decision. Defined.

Global Instance res_ret : MRet res := λ A a, Ok a.
Global Instance res_bind : MBind res := λ A B f m,
  match m with
  | Ok a => f a
  | Raise e => Raise e
  end.
Global Instance res_fmap : FMap res := λ A B f m,
  match m with
  | Ok a => Ok (f a)
  | Raise e => Raise e
  end.

(** [for x in l: acc.append(f x)] for a body that may raise. *)
Fixpoint for_each {A B} (f : A → res B) (l : list A) : res (list B) :=
  match l with
  | [] => Ok []
  | x :: l' => y ← f x; ys ← for_each f l'; mret (y :: ys)
  end.

(** ** Indexing and shapes *)

(** [l[i]] for a Python integer [i]: negative indices count from the end,
    anything outside [-len, len) raises. *)
Definition getitem {A} (l : list A) (i : Z) : res A :=
  let n := Z.of_nat (length l) in
  let k := if decide (i < 0)%Z then (i + n)%Z else i in
  if decide (0 ≤ k < n)%Z then
    match l !! Z.to_nat k with
    | Some x => Ok x
    | None => Raise IndexError
    end
  else Raise IndexError.

(** [l[a:b]] for [0 <= a]: slices clamp and never raise. *)
Definition slice {A} (a b : nat) (l : list A) : list A :=
  take (b - a) (drop a l).

(** [t.shape] of a two-dimensional tensor given by its rows. *)
Definition shape2 {A} (t : list (list A)) : nat * nat :=
  (length t, match t with [] => 0%nat | r :: _ => length r end).

(** Every row of [t] has [w] entries. *)
Definition rect {A} (w : nat) (t : list (list A)) : Prop :=
  Forall (λ r, length r = w) t.

(** [torch.stack]: an empty list of tensors is refused. *)
Definition stack {A} (l : list A) : res (list A) :=
  match l with
  | [] => Raise RuntimeError
  | _ => Ok l
  end.

(** [t.transpose(1, 0)] of a tensor with rows of [w] entries. *)
Definition transpose {A} (w : nat) (t : list (list A)) : list (list A) :=
  (λ j, omap (λ r, r !! j) t) <$> seq 0 w.

Definition zeros (n : nat) : list scalar := replicate n zero.

(** ** The random generators

    [torch] and [numpy] each own a global generator.  A generator is the
    stream of raw draws it will hand out and the position reached in it:
    torch's draws are the unit samples behind [rand] and [uniform_],
    numpy's are raw naturals reduced to the requested interval. *)

Record rng : Type := Rng {
  torch_draws : nat → Qc;
  torch_pos : nat;
  numpy_draws : nat → nat;
  numpy_pos : nat;
}.

(** Torch hands out samples of the half-open unit interval. *)
Definition unit_draws (g : rng) : Prop :=
  ∀ k, 0 ≤ torch_draws g k ∧ torch_draws g k < 1.

Definition Rand (A : Type) : Type := rng → res (A * rng).

Global Instance rand_ret : MRet Rand := λ A a g, Ok (a, g).
Global Instance rand_bind : MBind Rand := λ A B f m g,
  match m g with
  | Ok (a, g') => f a g'
  | Raise e => Raise e
  end.

Definition lift {A} (r : res A) : Rand A := λ g,
  match r with
  | Ok a => Ok (a, g)
  | Raise e => Raise e
  end.

Definition raise {A} (e : exn) : Rand A := λ _, Raise e.

Fixpoint rand_for_each {A B} (f : A → Rand B) (l : list A) : Rand (list B) :=
  match l with
  | [] => mret []
  | x :: l' => y ← f x; ys ← rand_for_each f l'; mret (y :: ys)
  end.

Definition torch_next : Rand Qc := λ g,
  Ok (torch_draws g (torch_pos g),
      Rng (torch_draws g) (S (torch_pos g)) (numpy_draws g) (numpy_pos g)).

Fixpoint torch_units (n : nat) : Rand (list Qc) :=
  match n with
  | O => mret []
  | S n' => u ← torch_next; us ← torch_units n'; mret (u :: us)
  end.

(** [torch.rand(n)] *)
Definition torch_rand (n : nat) : Rand (list scalar) :=
  us ← torch_units n; mret (Fin <$> us).

(** [t.uniform_(from, to)] refills [t] with [u * (to - from) + from] for
    fresh unit draws [u]; torch refuses bounds that are not finite or are
    out of order. *)
Definition uniform_ (t : list scalar) (from to : scalar) : Rand (list scalar) :=
  match from, to with
  | Fin a, Fin b =>
      if decide (a ≤ b) then
        us ← torch_units (length t);
        mret ((λ u, Fin (u * (b - a) + a)) <$> us)
      else raise RuntimeError
  | _, _ => raise RuntimeError
  end.

(** numpy's [random_interval(max)]: an integer of [0, max]. *)
Definition random_interval (max : nat) : Rand nat := λ g,
  Ok (numpy_draws g (numpy_pos g) `mod` S max,
      Rng (torch_draws g) (torch_pos g) (numpy_draws g) (S (numpy_pos g))).

(** ** [np.random.shuffle] on a torch tensor

    A torch tensor is not a numpy array, so numpy runs its generic loop
    [for i in reversed(range(1, n)): j = random_interval(i);
    x[i], x[j] = x[j], x[i]].  Indexing a tensor gives a view of its
    storage, not a copy: the right-hand side holds a view of [x[j]] and a
    view of [x[i]], and the second store reads the view of [x[i]] after the
    first store has overwritten that cell.  Numpy warns of it when it is
    handed such an object: objects with view semantics may contain
    duplicates after shuffling. *)

(** [x[dst] = v] where [v] is a view of [x[src]]. *)
Definition store_view (x : list scalar) (dst src : nat) : list scalar :=
  match x !! src with
  | Some v => <[dst := v]> x
  | None => x
  end.

(** [x[i], x[j] = x[j], x[i]] *)
Definition swap_items (x : list scalar) (i j : nat) : list scalar :=
  store_view (store_view x i j) j i.

Fixpoint shuffle_down (i : nat) (x : list scalar) : Rand (list scalar) :=
  match i with
  | O => mret x
  | S i' => j ← random_interval i; shuffle_down i' (swap_items x i j)
  end.

Definition np_random_shuffle (x : list scalar) : Rand (list scalar) :=
  shuffle_down (length x - 1) x.

(** ** [create_unifrom_d] *)

(** [z[k:] = rhs] for [rhs] of the length of [z[k:]]. *)
Definition assign_from (k : nat) (z rhs : list scalar) : list scalar :=
  take k z ++ rhs.

(** The gaps the code builds from the sorted samples:
    [g = zeros(n); g[1:] = s[1:] - s[:-1]]. *)
Definition inter_times (batch_len : nat) (s : list scalar) : list scalar :=
  assign_from 1 (zeros batch_len)
    (zip_with s_sub (drop 1 s) (take (length s - 1) s)).

(** The body of the loop over [tot_time_seqs]. *)
Definition sim_inter_time_of (batch_len : nat) (tot_time : scalar)
  : Rand (list scalar) :=
  u ← uniform_ (zeros batch_len) zero tot_time;
  let sim_time_seqs := merge_sort s_le u in
  let sim_inter_time := inter_times batch_len sim_time_seqs in
  np_random_shuffle sim_inter_time.

Definition create_unifrom_d (event_times : list (list scalar))
  : Rand (list (list scalar)) :=
  let '(batch_size, batch_len) := shape2 event_times in
  let tot_time_seqs := f32_sum <$> event_times in
  sim_inter_times ← rand_for_each (sim_inter_time_of batch_len) tot_time_seqs;
  lift (stack sim_inter_times).

(** ** [LogLikelihoodLoss.create_unif_d] *)

Definition create_unif_d (batch_length : nat) (total_time_seqs : list scalar)
  : Rand (list (list scalar)) :=
  sim_time_seqs ← rand_for_each (λ tot_time,
      t ← torch_rand batch_length;
      first ← lift (getitem total_time_seqs 0);
      uniform_ t zero first) total_time_seqs;
  sim_time_seqs ← lift (stack sim_time_seqs);
  mret (transpose batch_length sim_time_seqs).

(** ** The model and torch's elementwise functions

    The recurrent cell, the embedding and the intensity read-out are
    methods of the [model] argument.  A hidden state is a vector; the
    layers act on one vector, and a batch is a list of vectors. *)

Abbreviation vec := (list scalar).

Record nhp_model : Type := Model {
  hidden_size : nat;
  type_size : Z;
  Embedding : Z → vec;
  CTLSTM_cell : vec → vec → vec → vec → vec * vec * vec * vec;
  decay_cell : vec → vec → vec → vec → scalar → vec * vec;
  intensity_layer : vec → vec;
}.

(** The state tensors that [forward] unpacks from [output] by
    [torch.squeeze(torch.stack(val), 0)], each indexed by position, then
    sequence, then hidden unit. *)
Record decay_states : Type := States {
  hidden_t : list (list vec);
  cell_t : list (list vec);
  cell_target_t : list (list vec);
  output_t : list (list vec);
  decay_t : list (list vec);
}.

(** [enumerate(l)] *)
Definition enumerate {A} (l : list A) : list (nat * A) :=
  zip (seq 0 (length l)) l.

(** An elementwise binary operation on two vectors, broadcasting a vector
    of one entry and refusing other mismatches. *)
Definition broadcast2 (f : scalar → scalar → scalar) (a b : vec) : res vec :=
  if decide (length a = length b) then Ok (zip_with f a b)
  else match a, b with
       | [x], _ => Ok (f x <$> b)
       | _, [y] => Ok ((λ x, f x y) <$> a)
       | _, _ => Raise RuntimeError
       end.

(** The index pairs of [t[arr, idx, pos]]: the two index vectors are
    broadcast against each other. *)
Definition index_pairs (arr : list nat) (pos : list Z) : res (list (nat * Z)) :=
  if decide (length arr = length pos) then Ok (zip arr pos)
  else match arr, pos with
       | [a], _ => Ok ((λ p, (a, p)) <$> pos)
       | _, [p] => Ok ((λ a, (a, p)) <$> arr)
       | _, _ => Raise IndexError
       end.

(** A layer applied to every vector of a tensor indexed by position and
    sequence. *)
Definition on_vectors (f : vec → vec) (t : list (list vec)) : list (list vec) :=
  fmap (M := list) (fmap (M := list) f) t.

(** [t[:, idx]] *)
Definition select1 {A} (t : list (list A)) (idx : nat) : res (list A) :=
  for_each (λ row, getitem row (Z.of_nat idx)) t.

Section loss.
(** [Tensor.log] on one entry. *)
Variable t_log : scalar → scalar.

(** [t[arange(seq_len), idx, event_seq[1:seq_len+1]]]: the entries of [t]
    at the observed events of sequence [idx]. *)
Definition at_events (t : list (list vec)) (idx : nat)
    (event_seq : list Z) (seq_len : nat) : res vec :=
  let arr := seq 0 seq_len in
  let pos_events := slice 1 (seq_len + 1) event_seq in
  at_idx ← select1 t idx;
  pairs ← index_pairs arr pos_events;
  for_each (λ '(a, p),
      row ← getitem at_idx (Z.of_nat a); getitem row p) pairs.

(** The event term of one sequence:
    [log_intensity[arange(seq_len), idx, event_seq[1:seq_len+1]].sum()]. *)
Definition event_term (log_intensity : list (list vec)) (idx : nat)
    (event_seq : list Z) (seq_len : nat) : res scalar :=
  vals ← at_events log_intensity idx event_seq seq_len;
  mret (s_sum vals).

(** The Monte-Carlo term of one sequence:
    [total_time / seq_len * sim_intensity[arange(seq_len), idx, :].sum()]. *)
Definition integral_term (sim_intensity : list (list vec)) (idx : nat)
    (total_time : scalar) (seq_len : nat) : res scalar :=
  let mc_coefficient := s_div total_time (Fin (of_nat seq_len)) in
  let arr := seq 0 seq_len in
  at_idx ← select1 sim_intensity idx;
  rows ← for_each (λ a, getitem at_idx (Z.of_nat a)) arr;
  mret (s_mul mc_coefficient (s_sum (s_sum <$> rows))).

(** [model.decay_cell] on the states of one position for the whole batch;
    the second component of its result is kept. *)
Definition decay_batch (model : nhp_model) (c ct o d : list vec)
    (sim_duration : vec) : res (list vec) :=
  if decide (length c = length sim_duration ∧ length ct = length sim_duration
             ∧ length o = length sim_duration ∧ length d = length sim_duration)
  then Ok ((λ '(ci, cti, oi, di, dt), snd (decay_cell model ci cti oi di dt))
             <$> zip (zip (zip (zip c ct) o) d) sim_duration)
  else Raise RuntimeError.

(** The intensities at the simulated times, from the sampled durations. *)
Definition simulated_intensity (model : nhp_model) (output : decay_states)
    (sim_time_seqs : list vec) : res (list (list vec)) :=
  hidden_t_sim ← for_each (λ '(idx, sim_duration),
      let i := Z.of_nat idx in
      c ← getitem (cell_t output) i;
      ct ← getitem (cell_target_t output) i;
      o ← getitem (output_t output) i;
      d ← getitem (decay_t output) i;
      decay_batch model c ct o d sim_duration) (enumerate sim_time_seqs);
  stacked ← stack hidden_t_sim;
  mret (on_vectors (intensity_layer model) stacked).

(** The first loop of [forward]: the event term of every sequence. *)
Definition event_terms (model : nhp_model) (event_seqs : list (list Z))
    (seqs_length : list nat) (output : decay_states) : res vec :=
  let intensity := on_vectors (intensity_layer model) (hidden_t output) in
  let log_intensity := on_vectors (fmap t_log) intensity in
  for_each (λ '(idx, (event_seq, seq_len)),
      event_term log_intensity idx event_seq seq_len)
    (enumerate (zip event_seqs seqs_length)).

(** The sampling and the second loop of [forward]: the Monte-Carlo term
    of every sequence. *)
Definition integral_terms (model : nhp_model) (batch_length : nat)
    (seqs_length : list nat) (total_time_seqs : vec)
    (output : decay_states) : Rand vec :=
  sim_time_seqs ← create_unif_d batch_length total_time_seqs;
  sim_intensity ← lift (simulated_intensity model output sim_time_seqs);
  lift (for_each (λ '(idx, (total_time, seq_len)),
      integral_term sim_intensity idx total_time seq_len)
    (enumerate (zip total_time_seqs seqs_length))).

Definition forward (model : nhp_model) (event_seqs : list (list Z))
    (time_seqs : list vec) (seqs_length : list nat)
    (total_time_seqs : vec) (output : decay_states) : Rand scalar :=
  let '(batch_size, batch_length) := shape2 event_seqs in
  terms ← lift (event_terms model event_seqs seqs_length output);
  let original_loglikelihood := s_sum terms in
  terms ← integral_terms model batch_length seqs_length total_time_seqs output;
  let simulated_likelihood := s_sum terms in
  let loglikelihood := s_sub original_loglikelihood simulated_likelihood in
  mret (s_neg loglikelihood).
End loss.

(** ** [BeginningOfStream]

    Event types are an int64 tensor ([torch.long], the type an embedding
    layer is indexed with), on which [.long()] changes nothing; the
    padding entry [0 + type_size] of such a tensor is [type_size] wrapped
    to 64 bits. *)

Definition batch : Type :=
  list (list Z) * list vec * vec * list nat.

Definition BeginningOfStream (batch_data : batch) (type_size : Z) : res batch :=
  let '(seq_events, seq_time, seq_tot_time, seqs_len) := batch_data in
  first_events ← select1 seq_events 0;
  let pad_event := (λ _, int64 (0 + type_size)) <$> first_events in
  first_times ← select1 seq_time 0;
  let pad_time := (λ _, zero) <$> first_times in
  let pad_event_seqs := zip_with cons pad_event seq_events in
  let pad_time_seqs := zip_with cons pad_time seq_time in
  mret (pad_event_seqs, pad_time_seqs, seq_tot_time, seqs_len).

(** ** [predict_event]

    The [device] argument only places tensors and is left out; [hmax] and
    [n_samples] are Python numbers, so their quotient raises on a zero
    divisor where a tensor quotient would not. *)

(** [a / n] on Python numbers raises when [n] is zero. *)
Definition py_div (a : Qc) (n : Z) : res Qc :=
  if decide (n = 0)%Z then Raise ZeroDivisionError else Ok (a / Qc_of_Z n).

(** [range(a, b)] *)
Definition py_range (a b : Z) : list Z :=
  (λ k, (a + Z.of_nat k)%Z) <$> seq 0 (Z.to_nat (b - a)).

(** [torch.linspace(start, stop, steps)]: the points
    [start + i * (stop - start) / (steps - 1)]. *)
Definition linspace (start stop : Qc) (steps : Z) : res vec :=
  if decide (steps < 0)%Z then Raise RuntimeError
  else Ok ((λ i, Fin (start + of_nat i * ((stop - start) / Qc_of_Z (steps - 1))))
             <$> seq 0 (Z.to_nat steps)).

(** [torch.cumsum(x, dim=0)] *)
Fixpoint cumsum_from (acc : scalar) (x : vec) : vec :=
  match x with
  | [] => []
  | v :: x' => let acc' := s_add acc v in acc' :: cumsum_from acc' x'
  end.

Definition cumsum (x : vec) : vec := cumsum_from zero x.

(** [x[1:] + x[:-1]] *)
Definition neighbour_sums (x : vec) : vec :=
  zip_with s_add (drop 1 x) (take (length x - 1) x).

(** [m.sum(dim=0)] of a matrix given by its rows. *)
Definition sum_dim0 (m : list vec) : vec :=
  foldl (zip_with s_add) (zeros (snd (shape2 m))) m.

(** Whether a candidate replaces the running maximum in torch's [argmax]:
    a NaN beats everything that is not NaN, and ties keep the lower
    index. *)
Definition beats (cand best : scalar) : bool :=
  match cand, best with
  | _, NaN => false
  | NaN, _ => true
  | _, _ => negb (s_leb cand best)
  end.

Fixpoint argmax_from (best_idx : nat) (best : scalar) (idx : nat) (x : vec) : nat :=
  match x with
  | [] => best_idx
  | v :: x' =>
      if beats v best then argmax_from idx v (S idx) x'
      else argmax_from best_idx best (S idx) x'
  end.

(** [x.argmax()]: an empty tensor is refused. *)
Definition argmax (x : vec) : res nat :=
  match x with
  | [] => Raise RuntimeError
  | v :: x' => Ok (argmax_from 0 v 1 x')
  end.

(** [for x in l: s = f s x] for a body that may raise. *)
Fixpoint for_fold {S A} (f : S → A → res S) (l : list A) (s : S) : res S :=
  match l with
  | [] => Ok s
  | x :: l' => s' ← f s x; for_fold f l' s'
  end.

(** The state carried by the loop of [predict_event]. *)
Record pred_state : Type := PredState {
  st_h : vec;
  st_c : vec;
  st_c_target : vec;
  times_gt : vec;
  times_pred : vec;
  types_gt : list Z;
  types_pred : list nat;
}.

Section predictor.
(** [torch.exp] and [torch.tanh] on one entry. *)
Variables t_exp t_tanh : scalar → scalar.

(** [x * torch.exp(-decay * dt)] for one elapsed time [dt]. *)
Definition decayed (x decay : vec) (dt : scalar) : res vec :=
  broadcast2 s_mul x (t_exp <$> ((λ d, s_mul (s_neg d) dt) <$> decay)).

(** Step 1: the intensities on the grid. *)
Definition grid_intensity (model : nhp_model) (h_t decay : vec)
    (time_between_events : vec) : res (list vec) :=
  hidden_vals ← for_each (decayed h_t decay) time_between_events;
  mret (fmap (M := list) (intensity_layer model) hidden_vals).

(** Step 2: [density = cumsum(timestep * intensity_sum)] and then
    [density = intensity_sum * exp(-density)]. *)
Definition survival_density (timestep : Qc) (intensity_sum : vec) : vec :=
  let density := cumsum (s_mul (Fin timestep) <$> intensity_sum) in
  zip_with s_mul intensity_sum ((λ x, t_exp (s_neg x)) <$> density).

(** Step 3: [(timestep * 0.5 * (t[1:] + t[:-1])).sum()] for
    [t = time_between_events * density]. *)
Definition trapeze_time (timestep : Qc) (time_between_events density : vec)
    : scalar :=
  let t := zip_with s_mul time_between_events density in
  s_sum (s_mul (Fin (timestep * Q2Qc (1 # 2))) <$> neighbour_sums t).

(** Step 4: [P = intensity / intensity_sum[:, None] * density[:, None]]
    and [(timestep * 0.5 * (P[1:] + P[:-1])).sum(dim=0)]. *)
Definition type_scores (timestep : Qc) (intensity : list vec)
    (intensity_sum density : vec) : vec :=
  let P := zip_with (λ row '(total, dens),
               (λ x, s_mul (s_div x total) dens) <$> row)
             intensity (zip intensity_sum density) in
  sum_dim0 (fmap (M := list) (s_mul (Fin (timestep * Q2Qc (1 # 2))))
              <$> zip_with (zip_with s_add) (drop 1 P) (take (length P - 1) P)).

(** The prediction made at one position, from the hidden state and the
    decay rate reached there. *)
Definition predict_next (model : nhp_model) (h_t decay : vec)
    (hmax : Qc) (n_samples : Z) : res (scalar * nat) :=
  timestep ← py_div hmax n_samples;
  time_between_events ← linspace 0 hmax (n_samples + 1);
  intensity ← grid_intensity model h_t decay time_between_events;
  let intensity_sum := s_sum <$> intensity in
  let density := survival_density timestep intensity_sum in
  let pred_dt := trapeze_time timestep time_between_events density in
  let pred_type := type_scores timestep intensity intensity_sum density in
  pred_type ← argmax pred_type;
  mret (pred_dt, pred_type).

(** The body of the loop over [range(1, seq_length)]. *)
Definition predict_step (model : nhp_model) (seq_time : vec)
    (seq_events : list Z) (hmax : Qc) (n_samples : Z)
    (st : pred_state) (i : Z) : res pred_state :=
  event ← getitem seq_events i;
  let '(c_t, c_target, output, decay) :=
    CTLSTM_cell model (Embedding model event) (st_h st) (st_c st)
      (st_c_target st) in
  dt ← getitem seq_time i;
  c_t ← decayed c_t decay dt;
  h_t ← broadcast2 s_mul output (t_tanh <$> c_t);
  gt_type ← getitem seq_events (i + 1);
  gt_dt ← getitem seq_time (i + 1);
  '(pred_dt, pred_type) ← predict_next model h_t decay hmax n_samples;
  mret (if decide (1 < i)%Z
        then PredState h_t c_t c_target
               (times_gt st ++ [gt_dt]) (times_pred st ++ [pred_dt])
               (types_gt st ++ [gt_type]) (types_pred st ++ [pred_type])
        else PredState h_t c_t c_target
               (times_gt st) (times_pred st) (types_gt st) (types_pred st)).

Definition predict_event (model : nhp_model) (seq_time : vec)
    (seq_events : list Z) (hmax : Qc) (n_samples : Z)
    : res (vec * vec * list Z * list nat) :=
  let seq_length := (Z.of_nat (length seq_time) - 1)%Z in
  let h_t := zeros (hidden_size model) in
  let c_t := zeros (hidden_size model) in
  let c_target := zeros (hidden_size model) in
  st ← for_fold (predict_step model seq_time seq_events hmax n_samples)
         (py_range 1 seq_length)
         (PredState h_t c_t c_target [] [] [] []);
  mret (times_gt st, times_pred st, types_gt st, types_pred st).
End predictor.

(** ** What the statements below compare the code with *)

(** The generator [g] after [t] more torch draws and [k] more numpy
    draws. *)
Definition advance (g : rng) (t k : nat) : rng :=
  Rng (torch_draws g) (torch_pos g + t) (numpy_draws g) (numpy_pos g + k).

(** The [n] draws of the torch generator from draw number [first] on,
    scaled into [[0, T]]. *)
Definition scaled_draws (g : rng) (first n : nat) (T : Qc) : vec :=
  (λ j, Fin (torch_draws g (first + j) * T)) <$> seq 0 n.

(** The gaps of sorted samples with a 0 in front: gap 0 is 0 and gap
    [i >= 1] is [sample[i] - sample[i-1]]. *)
Definition gaps_after_zero (sorted : vec) : vec :=
  match sorted with
  | [] => []
  | _ :: later => zero :: zip_with s_sub later sorted
  end.

(** The gaps as the specification words them: the first gap is the first
    sorted sample, every later gap the difference of two neighbours. *)
Definition spec_gaps (samples : vec) : vec :=
  match samples with
  | [] => []
  | first :: _ => first :: zip_with s_sub (drop 1 samples) samples
  end.

(** The shapes the layers of a model keep: the cell returns states of
    [H] hidden units, the intensity layer one intensity for each of [K]
    event types, of which there is at least one. *)
Definition cell_shape (model : nhp_model) (H : nat) : Prop :=
  ∀ e h c c_target,
    match CTLSTM_cell model e h c c_target with
    | (c', _, o, d) => length c' = H ∧ length o = H ∧ length d = H
    end.

Definition intensity_shape (model : nhp_model) (K : nat) : Prop :=
  (0 < K)%nat ∧ ∀ h, length (intensity_layer model h) = K.

(** The intensities a time [dt] after the hidden state [h_t] was reached,
    for a hidden state and a decay rate of the same size. *)
Definition decayed_intensity (t_exp : scalar → scalar) (model : nhp_model)
    (h_t decay : vec) (dt : Qc) : vec :=
  intensity_layer model
    (zip_with s_mul h_t (t_exp <$> ((λ d, s_mul (s_neg d) (Fin dt)) <$> decay))).

(** The prediction as the specification words it, for the total intensity
    [total i] at the grid point of index [i]: the grid point [i * step],
    the cumulative hazard as the running sum of [step * total], the
    survival density, and the trapezoidal rule over [n] intervals. *)
Definition spec_grid (step : Qc) (i : nat) : Qc := of_nat i * step.

Definition spec_hazard (step : Qc) (total : nat → scalar) (i : nat) : scalar :=
  s_sum ((λ j, s_mul (Fin step) (total j)) <$> seq 0 (S i)).

Definition spec_density (t_exp : scalar → scalar) (step : Qc)
    (total : nat → scalar) (i : nat) : scalar :=
  s_mul (total i) (t_exp (s_neg (spec_hazard step total i))).

Definition spec_trapezoid (step : Qc) (f : nat → scalar) (n : nat) : scalar :=
  s_sum ((λ i, s_mul (Fin (step / (1 + 1))) (s_add (f i) (f (S i))))
           <$> seq 0 n).

(** ** Concrete inputs *)

(** The entry [a / b]. *)
Definition rat (a : Z) (b : positive) : scalar := Fin (Q2Qc (a # b)).

(** Generators whose torch draws are all [1/2], or all [9/10]; numpy's raw
    draws count upwards. *)
Definition half_draws : rng := Rng (λ _, Q2Qc (1 # 2)) 0 (λ k, k) 0.
Definition high_draws : rng := Rng (λ _, Q2Qc (9 # 10)) 0 (λ k, k) 0.

(** A generator whose torch draws are 1/2, 1/3, 1/4, ...; numpy's raw draws
    count upwards. *)
Definition spread_draws : rng :=
  Rng (λ k, Q2Qc (1 # Pos.of_succ_nat (S k))) 0 (λ k, k) 0.

(** The value a computation returns, without the generator it leaves. *)
Definition result {A} (m : Rand A) (g : rng) : res A := fst <$> m g.

(** Two sequences of three inter-arrival times. *)
Definition two_by_three : list vec :=
  [[rat 1 1; rat 2 1; rat 1 2]; [rat 0 1; rat 3 1; rat 1 1]].

(** The batch of the end-to-end scenario: one sequence of three events of
    types 2, 0, 1 with inter-arrival times 1, 2, 1/2. *)
Definition scenario : batch :=
  ([[2; 0; 1]%Z], [[rat 1 1; rat 2 1; rat 1 2]], [rat 7 2], [3%nat]).

(** Rational stand-ins for [torch.exp], [torch.tanh] and [Tensor.log].
    They agree with the real functions at 0 (and 1 for the logarithm), at
    the infinities and at NaN, where the statements below evaluate them;
    elsewhere they are rational bounds of the right sign. *)
Definition exp_rational (x : scalar) : scalar :=
  match x with
  | Fin a => if decide (0 ≤ a) then Fin (1 + a) else Fin (1 / (1 - a))
  | PInf => PInf
  | NInf => zero
  | NaN => NaN
  end.

Definition tanh_rational (x : scalar) : scalar :=
  match x with
  | Fin a => if decide (0 ≤ a) then Fin (a / (1 + a)) else Fin (a / (1 - a))
  | PInf => Fin 1
  | NInf => Fin (- 1)
  | NaN => NaN
  end.

Definition log_rational (x : scalar) : scalar :=
  match x with
  | Fin a =>
      match a ?= 0 with
      | Eq => NInf
      | Lt => NaN
      | Gt => Fin (1 - 1 / a)
      end
  | PInf => PInf
  | NInf | NaN => NaN
  end.

(** A model of one hidden unit and one event type: the cell adds the
    embedding to its state, with output gate 1 and decay rate 0, the
    decayed hidden state is the elapsed time, and the intensity is the
    sum of the hidden units. *)
Definition clock_model : nhp_model :=
  Model 1 1 (λ _, [rat 1 1])
    (λ e _ c _, ([s_add (s_sum c) (s_sum e)], [zero], [rat 1 1], [rat 0 1]))
    (λ c _ _ _ dt, (c, [dt]))
    (λ h, [s_sum h]).

(** A model of two event types whose intensities are 0 everywhere. *)
Definition silent_model : nhp_model :=
  Model 1 2 (λ _, [rat 1 1])
    (λ e _ c _, ([s_add (s_sum c) (s_sum e)], [zero], [rat 1 1], [rat 1 1]))
    (λ c _ _ _ dt, (c, [dt]))
    (λ _, [zero; zero]).

(** State tensors of [positions] positions and [sequences] sequences in
    which every hidden unit holds [v]. *)
Definition constant_states (positions sequences : nat) (v : scalar)
    : decay_states :=
  let t := replicate positions (replicate sequences [v]) in
  States t t t t t.

(** A model of two event types whose intensities are 1/2 and 1/4
    everywhere. *)
Definition steady_model : nhp_model :=
  Model 1 2 (λ _, [rat 1 1])
    (λ e _ c _, ([s_add (s_sum c) (s_sum e)], [zero], [rat 1 1], [rat 1 1]))
    (λ c _ _ _ dt, (c, [dt]))
    (λ _, [rat 1 2; rat 1 4]).

(** * Properties *)

(** ** Entries and their order *)

Lemma s_le_fin a b : s_le (Fin a) (Fin b) ↔ a ≤ b.
Proof. unfold s_le; simpl. apply bool_decide_eq_true. Qed.

Global Instance s_le_total : Total s_le.
Proof.
  intros [a| | |] [b| | |]; unfold s_le; simpl; auto.
  rewrite !bool_decide_eq_true. apply (total Qcle).
Qed.

Global Instance s_le_trans : Transitive s_le.
Proof.
  intros [a| | |] [b| | |] [c| | |]; unfold s_le; simpl; auto; try discriminate.
  rewrite !bool_decide_eq_true. apply Qcle_trans.
Qed.

Lemma s_add_zero_l x : s_add zero x = x.
Proof. destruct x; simpl; auto. by rewrite Qcplus_0_l. Qed.

Lemma nonneg_add x y : nonneg x → nonneg y → nonneg (s_add x y).
Proof.
  destruct x, y; simpl; try tauto. apply Qcplus_nonneg_nonneg.
Qed.

Lemma nonneg_sub_le a b : a ≤ b → nonneg (s_sub (Fin b) (Fin a)).
Proof. simpl. by rewrite Qcle_minus_iff. Qed.

Lemma foldl_add_nonneg acc l :
  nonneg acc → Forall nonneg l → nonneg (foldl s_add acc l).
Proof.
  intros Hacc Hl. revert acc Hacc.
  induction Hl as [|x l Hx _ IH]; intros acc Hacc; simpl; [done|].
  apply IH. by apply nonneg_add.
Qed.

Lemma s_sum_nonneg l : Forall nonneg l → nonneg (s_sum l).
Proof. apply foldl_add_nonneg. simpl. apply Qcle_refl. Qed.

Lemma nonneg_fin x : nonneg x → ∃ a, x = Fin a ∧ 0 ≤ a.
Proof. destruct x; simpl; try tauto. eauto. Qed.

(** ** Running the random computations *)

Lemma rand_bind_run {A B} (m : Rand A) (f : A → Rand B) g a g1 :
  m g = Ok (a, g1) → (m ≫= f) g = f a g1.
Proof. intros H. unfold mbind, rand_bind. by rewrite H. Qed.

Lemma rand_bind_congr {A B} (m m' : Rand A) (f : A → Rand B) g :
  m g = m' g → (m ≫= f) g = (m' ≫= f) g.
Proof. unfold mbind, rand_bind. by intros ->. Qed.

Lemma torch_units_run n g :
  ∃ g', torch_units n g = Ok (torch_draws g <$> seq (torch_pos g) n, g')
        ∧ torch_draws g' = torch_draws g.
Proof.
  revert g; induction n as [|n IH]; intros g; simpl.
  - by exists g.
  - destruct (IH (Rng (torch_draws g) (S (torch_pos g)) (numpy_draws g)
                    (numpy_pos g))) as (g' & Hrun & Hd); simpl in *.
    exists g'. split; [|done].
    unfold mbind, rand_bind, torch_next. by rewrite Hrun.
Qed.

Lemma uniform_run t b g :
  0 ≤ b →
  ∃ g', uniform_ t zero (Fin b) g
        = Ok ((λ u, Fin (u * b)) <$> (torch_draws g <$> seq (torch_pos g) (length t)), g')
        ∧ torch_draws g' = torch_draws g.
Proof.
  intros Hb. unfold uniform_, zero.
  destruct (decide (0 ≤ b)) as [_|]; [|done].
  destruct (torch_units_run (length t) g) as (g' & Hrun & Hd).
  exists g'. split; [|done].
  rewrite (rand_bind_run _ _ _ _ _ Hrun). unfold mret, rand_ret.
  do 2 f_equal. apply list_fmap_ext. intros _ u _. f_equal. ring.
Qed.

Lemma store_view_Forall (P : scalar → Prop) x dst src :
  Forall P x → Forall P (store_view x dst src).
Proof.
  intros HP. unfold store_view.
  destruct (x !! src) as [v|] eqn:Hsrc; [|done].
  apply Forall_insert; [done|]. by eapply Forall_lookup_1.
Qed.

Lemma store_view_length x dst src : length (store_view x dst src) = length x.
Proof.
  unfold store_view. destruct (x !! src); [|done]. apply length_insert.
Qed.

Lemma shuffle_down_run i x g :
  ∃ y g', shuffle_down i x g = Ok (y, g')
          ∧ torch_draws g' = torch_draws g
          ∧ length y = length x
          ∧ ∀ P : scalar → Prop, Forall P x → Forall P y.
Proof.
  revert x g; induction i as [|i IH]; intros x g; simpl.
  - exists x, g. by repeat split.
  - unfold mbind, rand_bind, random_interval.
    match goal with |- context [shuffle_down i ?x' ?g'] =>
      destruct (IH x' g') as (y & g'' & Hrun & Hd & Hlen & HP) end.
    exists y, g''. split; [done|]. split; [done|]. split.
    + rewrite Hlen. unfold swap_items. by rewrite !store_view_length.
    + intros P Hx. apply HP. unfold swap_items.
      by do 2 apply store_view_Forall.
Qed.

(** The two stores of [x[i], x[j] = x[j], x[i]] read through views: both
    cells end up with the old [x[j]]. *)
Lemma swap_items_duplicates (a b : scalar) : swap_items [a; b] 1 0 = [a; a].
Proof. reflexivity. Qed.

Lemma rand_for_each_run {A B} (I : rng → Prop) (R : A → B → Prop)
    (f : A → Rand B) l g :
  I g →
  (∀ x g1, x ∈ l → I g1 → ∃ y g2, f x g1 = Ok (y, g2) ∧ I g2 ∧ R x y) →
  ∃ ys g', rand_for_each f l g = Ok (ys, g') ∧ I g' ∧ Forall2 R l ys.
Proof.
  revert g; induction l as [|x l IH]; intros g Hg Hf; simpl.
  - exists [], g. by repeat split.
  - destruct (Hf x g) as (y & g1 & Hx & Hg1 & Hxy); [left|done|].
    destruct (IH g1 Hg1) as (ys & g2 & Hl & Hg2 & Hall).
    { intros z gz Hz. apply Hf. by right. }
    exists (y :: ys), g2. split; [|split; [done|by constructor]].
    rewrite (rand_bind_run _ _ _ _ _ Hx), (rand_bind_run _ _ _ _ _ Hl). done.
Qed.

(** ** The gaps between sorted samples *)

Lemma zip_with_take_r {A B C} (f : A → B → C) l k :
  zip_with f l (take (length l) k) = zip_with f l k.
Proof.
  revert k; induction l as [|x l IH]; intros [|y k]; simpl; try done.
  by rewrite IH.
Qed.

Lemma inter_times_nil : inter_times 0 [] = [].
Proof. done. Qed.

Lemma inter_times_cons a s :
  inter_times (S (length s)) (a :: s) = zero :: zip_with s_sub s (a :: s).
Proof.
  unfold inter_times, assign_from, zeros. simpl.
  rewrite Nat.sub_0_r, drop_0. f_equal. apply zip_with_take_r.
Qed.

(** The gaps the code builds are the gaps with a 0 in front. *)
Lemma inter_times_gaps n s : length s = n → inter_times n s = gaps_after_zero s.
Proof.
  intros <-. destruct s as [|a s]; [done|].
  change (length (a :: s)) with (S (length s)). apply inter_times_cons.
Qed.

Lemma gaps_after_zero_length s : length (gaps_after_zero s) = length s.
Proof.
  destruct s as [|a s]; [done|]. simpl. rewrite length_zip_with. simpl.
  f_equal. lia.
Qed.

Lemma gaps_after_zero_first s :
  s ≠ [] → gaps_after_zero s !! 0%nat = Some zero.
Proof. by destruct s. Qed.

Lemma neighbour_gaps_nonneg a s :
  Sorted s_le (a :: s) → Forall is_fin (a :: s) →
  Forall nonneg (zip_with s_sub s (a :: s)).
Proof.
  revert a; induction s as [|b s IH]; intros a Hsort Hfin; simpl; [done|].
  apply Sorted_inv in Hsort as [Hsort Hhd]. apply HdRel_inv in Hhd.
  inversion Hfin as [|? ? Ha Hfin']; subst.
  constructor; [|by apply IH].
  inversion Hfin' as [|? ? Hb _]; subst.
  destruct a, b; try done. apply nonneg_sub_le. by apply s_le_fin.
Qed.

Lemma gaps_after_zero_nonneg s :
  Sorted s_le s → Forall is_fin s → Forall nonneg (gaps_after_zero s).
Proof.
  intros Hsort Hfin. destruct s as [|a s]; [done|]. simpl.
  constructor; [simpl; apply Qcle_refl|]. by apply neighbour_gaps_nonneg.
Qed.

Lemma gap_bounds (a b T : Qc) :
  0 ≤ a → a ≤ b → b ≤ T → 0 ≤ b + - a ∧ b + - a ≤ T.
Proof.
  intros Ha Hab HbT. split; [exact (proj1 (Qcle_minus_iff a b) Hab)|].
  rewrite <- (Qcplus_0_r T). apply Qcplus_le_compat; [done|].
  change 0 with (- 0). by apply Qcopp_le_compat.
Qed.

Lemma neighbour_gaps_bounded (T : Qc) a s :
  Sorted s_le (a :: s) →
  Forall (λ x, ∃ q, x = Fin q ∧ 0 ≤ q ∧ q ≤ T) (a :: s) →
  Forall (λ x, ∃ q, x = Fin q ∧ 0 ≤ q ∧ q ≤ T) (zip_with s_sub s (a :: s)).
Proof.
  revert a; induction s as [|b s IH]; intros a Hsort Hin; simpl; [done|].
  apply Sorted_inv in Hsort as [Hsort Hhd]. apply HdRel_inv in Hhd.
  inversion Hin as [|? ? (qa & -> & Ha0 & _) Hin']; subst.
  constructor; [|by apply IH].
  inversion Hin' as [|? ? (qb & -> & _ & HbT) _]; subst.
  apply s_le_fin in Hhd. simpl. eexists. split; [done|]. by apply gap_bounds.
Qed.

Lemma gaps_after_zero_bounded (T : Qc) s :
  0 ≤ T → Sorted s_le s →
  Forall (λ x, ∃ q, x = Fin q ∧ 0 ≤ q ∧ q ≤ T) s →
  Forall (λ x, ∃ q, x = Fin q ∧ 0 ≤ q ∧ q ≤ T) (gaps_after_zero s).
Proof.
  intros HT Hsort Hin. destruct s as [|a s]; [done|]. simpl.
  constructor; [|by apply neighbour_gaps_bounded].
  exists 0. split; [done|]. split; [apply Qcle_refl|done].
Qed.

Lemma scaled_draw_bounds (u T : Qc) :
  0 ≤ u → u < 1 → 0 ≤ T → 0 ≤ u * T ∧ u * T ≤ T.
Proof.
  intros Hu0 Hu1 HT. split.
  - rewrite <- (Qcmult_0_l T). by apply Qcmult_le_compat_r.
  - rewrite <- (Qcmult_1_l T) at 2. apply Qcmult_le_compat_r; [|done].
    by apply Qclt_le_weak.
Qed.

Lemma scaled_draws_length g first n T : length (scaled_draws g first n T) = n.
Proof. unfold scaled_draws. by rewrite length_fmap, length_seq. Qed.

Lemma scaled_draws_fin g first n T : Forall is_fin (scaled_draws g first n T).
Proof. unfold scaled_draws. rewrite Forall_fmap. by apply Forall_forall. Qed.

Lemma scaled_draws_bounded g first n T :
  0 ≤ T → unit_draws g →
  Forall (λ x, ∃ q, x = Fin q ∧ 0 ≤ q ∧ q ≤ T) (scaled_draws g first n T).
Proof.
  intros HT Hg. unfold scaled_draws. rewrite Forall_fmap.
  apply Forall_forall. intros j _. simpl. eexists. split; [done|].
  destruct (Hg (first + j)%nat). by apply scaled_draw_bounds.
Qed.

(** ** The state of the generators *)

Lemma advance_zero g : advance g 0 0 = g.
Proof. destruct g. unfold advance. simpl. by rewrite !Nat.add_0_r. Qed.

Lemma advance_advance g t k t' k' :
  advance (advance g t k) t' k' = advance g (t + t') (k + k').
Proof. unfold advance. simpl. f_equal; lia. Qed.

Lemma rng_fields g g' t k :
  torch_draws g' = torch_draws g → torch_pos g' = (torch_pos g + t)%nat →
  numpy_draws g' = numpy_draws g → numpy_pos g' = (numpy_pos g + k)%nat →
  g' = advance g t k.
Proof. destruct g'. unfold advance. simpl. by intros -> -> -> ->. Qed.

Lemma seq_from_zero a n : seq a n = Nat.add a <$> seq 0 n.
Proof. by rewrite fmap_add_seq, Nat.add_0_r. Qed.

Lemma torch_units_exact n g :
  torch_units n g = Ok (torch_draws g <$> seq (torch_pos g) n, advance g n 0).
Proof.
  revert g; induction n as [|n IH]; intros g; simpl.
  - unfold mret, rand_ret. by rewrite advance_zero.
  - unfold mbind, rand_bind, torch_next. rewrite IH. simpl.
    unfold mret, rand_ret, advance. simpl. do 3 f_equal; lia.
Qed.

(** [uniform_(0, T)] on a tensor of [n] entries takes the next [n] draws. *)
Lemma uniform_exact (t : vec) T g :
  0 ≤ T →
  uniform_ t zero (Fin T) g
  = Ok (scaled_draws g (torch_pos g) (length t) T, advance g (length t) 0).
Proof.
  intros HT. unfold uniform_, zero.
  destruct (decide (0 ≤ T)) as [_|]; [|done].
  rewrite (rand_bind_run _ _ _ _ _ (torch_units_exact (length t) g)).
  unfold mret, rand_ret, scaled_draws. do 2 f_equal.
  rewrite seq_from_zero, <- !list_fmap_compose.
  apply list_fmap_ext. intros _ j _. simpl. f_equal. ring.
Qed.

Lemma swap_items_store (x : vec) i j v :
  (i < length x)%nat → x !! j = Some v → swap_items x i j = <[i := v]> x.
Proof.
  intros Hi Hj. unfold swap_items, store_view. rewrite Hj.
  rewrite list_lookup_insert_eq by done.
  destruct (decide (i = j)) as [->|Hne].
  - by rewrite list_insert_insert_eq.
  - apply list_insert_id. by rewrite list_lookup_insert_ne.
Qed.

(** The loop of the shuffle from position [i] down: the positions above
    [i] and position 0 keep their entries, and position [k] below gets the
    entry that stood at the drawn position, which is at most [k]. *)
Lemma shuffle_down_lookup i (x : vec) g :
  (i = 0 ∨ i < length x)%nat →
  ∃ y g', shuffle_down i x g = Ok (y, g')
    ∧ length y = length x
    ∧ y !! 0%nat = x !! 0%nat
    ∧ (∀ k, (i < k)%nat → y !! k = x !! k)
    ∧ (∀ k, (1 ≤ k ≤ i)%nat →
         y !! k = x !! (numpy_draws g (numpy_pos g + (i - k)) `mod` S k)%nat)
    ∧ torch_draws g' = torch_draws g ∧ torch_pos g' = torch_pos g
    ∧ numpy_draws g' = numpy_draws g
    ∧ numpy_pos g' = (numpy_pos g + i)%nat.
Proof.
  revert x g; induction i as [|i IH]; intros x g Hi.
  - exists x, g. simpl. repeat split; try done; try lia.
  - destruct Hi as [?|Hi]; [lia|]. cbn [shuffle_down].
    unfold mbind, rand_bind, random_interval.
    set (j := (numpy_draws g (numpy_pos g) `mod` S (S i))%nat).
    assert (Hj : (j < S (S i))%nat) by (apply Nat.mod_upper_bound; lia).
    destruct (lookup_lt_is_Some_2 x j) as (v & Hv); [lia|].
    rewrite (swap_items_store x (S i) j v Hi Hv).
    destruct (IH (<[S i := v]> x)
                (Rng (torch_draws g) (torch_pos g) (numpy_draws g)
                   (S (numpy_pos g))))
      as (y & g' & Hrun & Hlen & H0 & Habove & Hbelow & Ht & Htp & Hn & Hnp).
    { right. rewrite length_insert. lia. }
    cbn [torch_draws torch_pos numpy_draws numpy_pos] in *.
    exists y, g'. split; [done|].
    rewrite length_insert in Hlen. split; [done|].
    split; [by rewrite H0, list_lookup_insert_ne by lia|].
    split; [|split; [|repeat split; try done; lia]].
    + intros k Hk. rewrite Habove by lia.
      by rewrite list_lookup_insert_ne by lia.
    + intros k Hk. destruct (decide (k = S i)) as [->|Hne].
      * rewrite Habove by lia. rewrite list_lookup_insert_eq by done.
        rewrite Nat.sub_diag, Nat.add_0_r. symmetry. exact Hv.
      * rewrite Hbelow by lia.
        replace (S (numpy_pos g) + (i - k))%nat
          with (numpy_pos g + (S i - k))%nat by lia.
        apply list_lookup_insert_ne.
        pose proof (Nat.mod_upper_bound
                      (numpy_draws g (numpy_pos g + (S i - k))) (S k)). lia.
Qed.

(** The shuffle of [n] entries takes [n - 1] numpy draws, keeps position 0
    and returns entries of its input only. *)
Lemma np_random_shuffle_exact (x : vec) g :
  ∃ y, np_random_shuffle x g = Ok (y, advance g 0 (length x - 1))
    ∧ length y = length x
    ∧ y !! 0%nat = x !! 0%nat
    ∧ ∀ P : scalar → Prop, Forall P x → Forall P y.
Proof.
  unfold np_random_shuffle.
  destruct (shuffle_down_lookup (length x - 1) x g)
    as (y & g' & Hrun & Hlen & H0 & _ & _ & Ht & Htp & Hn & Hnp); [lia|].
  destruct (shuffle_down_run (length x - 1) x g)
    as (y' & g'' & Hrun' & _ & _ & HP).
  rewrite Hrun in Hrun'. injection Hrun' as <- <-.
  exists y. rewrite Hrun. split; [|done]. do 2 f_equal.
  apply rng_fields; try done. lia.
Qed.

(** ** The float32 range of a row total *)

Lemma f32_overflow_neg : - f32_overflow < 0.
Proof. compute_done. Qed.

Lemma f32_nonneg_fin q : 0 ≤ q → q < f32_overflow → f32 (Fin q) = Fin q.
Proof.
  intros Hq Hhi. unfold f32.
  destruct (decide (f32_overflow ≤ q)) as [H|_].
  { exfalso. by eapply Qclt_not_le. }
  destruct (decide (q ≤ - f32_overflow)) as [H|_]; [|done].
  exfalso. eapply Qclt_not_le; [|exact H].
  eapply Qclt_le_trans; [apply f32_overflow_neg|done].
Qed.

Lemma foldl_f32_inf (l : vec) :
  Forall nonneg l → foldl (λ acc x, f32 (s_add acc x)) PInf l = PInf.
Proof.
  induction 1 as [|x l Hx _ IH]; [done|]. simpl.
  by destruct x as [q| | |].
Qed.

Lemma foldl_add_ge (l : vec) a :
  Forall nonneg l → ∃ t, foldl s_add (Fin a) l = Fin t ∧ a ≤ t.
Proof.
  intros Hl. revert a. induction Hl as [|x l Hx _ IH]; intros a.
  - exists a. split; [done|apply Qcle_refl].
  - destruct x as [q| | |]; try done. simpl in Hx. cbn [foldl s_add].
    destruct (IH (a + q)) as (t & Ht & Hat). exists t. split; [done|].
    etrans; [|exact Hat]. rewrite <- (Qcplus_0_r a) at 1.
    apply Qcplus_le_compat; [apply Qcle_refl|done].
Qed.

(** A running sum of entries that are not negative: the exact sum when it
    stays below the overflow threshold, [+inf] otherwise. *)
Lemma foldl_f32_nonneg (l : vec) a :
  Forall nonneg l → 0 ≤ a → a < f32_overflow →
  ∃ t, foldl s_add (Fin a) l = Fin t ∧ a ≤ t
       ∧ foldl (λ acc x, f32 (s_add acc x)) (Fin a) l
         = if decide (t < f32_overflow) then Fin t else PInf.
Proof.
  intros Hl. revert a. induction Hl as [|x l Hx Hl IH]; intros a Ha0 Ha.
  - exists a. simpl. split; [done|]. split; [apply Qcle_refl|].
    by destruct (decide (a < f32_overflow)).
  - destruct x as [q| | |]; try done. simpl in Hx. cbn [foldl s_add].
    assert (Haq : 0 ≤ a + q) by by apply Qcplus_nonneg_nonneg.
    assert (Hle : a ≤ a + q).
    { rewrite <- (Qcplus_0_r a) at 1.
      apply Qcplus_le_compat; [apply Qcle_refl|done]. }
    destruct (decide (a + q < f32_overflow)) as [Hin|Hout].
    + rewrite (f32_nonneg_fin _ Haq Hin).
      destruct (IH (a + q) Haq Hin) as (t & Ht & Hat & Hf).
      exists t. split; [done|]. split; [by etrans|done].
    + assert (f32 (Fin (a + q)) = PInf) as ->.
      { unfold f32. destruct (decide (f32_overflow ≤ a + q)) as [_|H]; [done|].
        exfalso. apply Hout. by apply Qcnot_le_lt. }
      rewrite foldl_f32_inf by done.
      destruct (foldl_add_ge l (a + q) Hl) as (t & Ht & Hat).
      exists t. split; [done|]. split; [by etrans|].
      destruct (decide (t < f32_overflow)) as [Ht'|_]; [|done].
      exfalso. apply Hout. by eapply Qcle_lt_trans.
Qed.

(** The float32 total of a row of entries that are not negative. *)
Lemma f32_sum_nonneg (l : vec) :
  Forall nonneg l →
  ∃ t, s_sum l = Fin t ∧ 0 ≤ t
       ∧ f32_sum l = if decide (t < f32_overflow) then Fin t else PInf.
Proof.
  intros Hl. unfold s_sum, f32_sum, zero.
  apply (foldl_f32_nonneg l 0 Hl); [apply Qcle_refl|compute_done].
Qed.

Lemma f32_sum_in_range (l : vec) :
  Forall nonneg l → in_f32 (s_sum l) →
  ∃ t, s_sum l = Fin t ∧ 0 ≤ t ∧ f32_sum l = Fin t.
Proof.
  intros Hl Hin. destruct (f32_sum_nonneg l Hl) as (t & Ht & Ht0 & Hf).
  exists t. split; [done|]. split; [done|]. rewrite Hf.
  rewrite Ht in Hin. destruct Hin as [_ Hhi].
  by destruct (decide (t < f32_overflow)).
Qed.

(** On such a row the float32 total is finite and not negative exactly when
    the exact total is inside the float32 range. *)
Lemma f32_sum_nonneg_iff (l : vec) :
  Forall nonneg l → nonneg (f32_sum l) ↔ in_f32 (s_sum l).
Proof.
  intros Hl. destruct (f32_sum_nonneg l Hl) as (t & -> & Ht0 & ->).
  destruct (decide (t < f32_overflow)) as [Ht|Ht]; simpl.
  - split; [|done]. intros _. split; [|done].
    eapply Qclt_le_trans; [apply f32_overflow_neg|done].
  - split; [done|]. by intros [_ ?].
Qed.

(** ** One pass of the loop of [create_unifrom_d] *)

(** The row of a sequence of total time [T]: the next [n] torch draws
    scaled into [[0, T]], sorted, turned into gaps after a 0 and shuffled
    with the next [n - 1] numpy draws. *)
Lemma sim_inter_time_of_exact n T g :
  0 ≤ T →
  ∃ row,
    sim_inter_time_of n (Fin T) g = Ok (row, advance g n (n - 1))
    ∧ result (np_random_shuffle
                (gaps_after_zero
                   (merge_sort s_le (scaled_draws g (torch_pos g) n T))))
        (advance g n 0) = Ok row.
Proof.
  intros HT. unfold sim_inter_time_of.
  pose proof (uniform_exact (zeros n) T g HT) as Hu.
  unfold zeros in Hu. rewrite length_replicate in Hu.
  rewrite (rand_bind_run _ _ _ _ _ Hu).
  set (s := merge_sort s_le (scaled_draws g (torch_pos g) n T)).
  assert (Hlen : length s = n).
  { unfold s. rewrite merge_sort_Permutation. apply scaled_draws_length. }
  rewrite (inter_times_gaps n s Hlen).
  destruct (np_random_shuffle_exact (gaps_after_zero s) (advance g n 0))
    as (row & Hrun & _).
  rewrite gaps_after_zero_length, Hlen, advance_advance in Hrun.
  rewrite Nat.add_0_r in Hrun. simpl in Hrun.
  exists row. split; [done|].
  unfold result.
  destruct (np_random_shuffle_exact (gaps_after_zero s) (advance g n 0))
    as (row' & Hrun' & _).
  rewrite Hrun'. simpl. f_equal.
  rewrite gaps_after_zero_length, Hlen, advance_advance in Hrun'.
  rewrite Nat.add_0_r in Hrun'. simpl in Hrun'. congruence.
Qed.

(** What a row of that form holds. *)
Lemma sampled_row_facts g first n T gs (row : vec) :
  0 ≤ T →
  result (np_random_shuffle
            (gaps_after_zero (merge_sort s_le (scaled_draws g first n T))))
    gs = Ok row →
  length row = n
  ∧ Forall nonneg row
  ∧ ((0 < n)%nat → row !! 0%nat = Some zero)
  ∧ (unit_draws g → Forall (λ x, ∃ q, x = Fin q ∧ 0 ≤ q ∧ q ≤ T) row).
Proof.
  intros HT. set (s := merge_sort s_le (scaled_draws g first n T)).
  assert (Hperm : s ≡ₚ scaled_draws g first n T)
    by apply merge_sort_Permutation.
  assert (Hlen : length s = n) by (rewrite Hperm; apply scaled_draws_length).
  assert (Hsort : Sorted s_le s) by apply (Sorted_merge_sort s_le).
  assert (Hfin : Forall is_fin s) by (rewrite Hperm; apply scaled_draws_fin).
  destruct (np_random_shuffle_exact (gaps_after_zero s) gs)
    as (y & Hrun & Hyl & Hy0 & HP).
  unfold result. rewrite Hrun. simpl. intros [= <-].
  rewrite gaps_after_zero_length, Hlen in Hyl.
  split; [done|]. split; [by apply HP, gaps_after_zero_nonneg|].
  split.
  - intros Hn. rewrite Hy0. apply gaps_after_zero_first.
    intros Hs. rewrite Hs in Hlen. simpl in Hlen. lia.
  - intros Hg. apply HP, gaps_after_zero_bounded; [done|done|].
    rewrite Hperm. by apply scaled_draws_bounded.
Qed.

(** ** The loop of [create_unifrom_d] *)

Lemma create_unifrom_d_loop n (event_times : list vec) g :
  Forall (Forall nonneg) event_times →
  Forall (λ times, in_f32 (s_sum times)) event_times →
  ∃ rows,
    rand_for_each (sim_inter_time_of n) (f32_sum <$> event_times) g
    = Ok (rows, advance g (length event_times * n)
                  (length event_times * (n - 1)))
    ∧ length rows = length event_times
    ∧ ∀ b times, event_times !! b = Some times →
        ∃ T row, s_sum times = Fin T ∧ 0 ≤ T ∧ rows !! b = Some row
          ∧ result (np_random_shuffle
                      (gaps_after_zero
                         (merge_sort s_le
                            (scaled_draws g (torch_pos g + b * n) n T))))
              (advance g (S b * n) (b * (n - 1))) = Ok row.
Proof.
  intros Hpos. revert g.
  induction Hpos as [|times event_times Htimes _ IH]; intros g Hin.
  - exists []. simpl. unfold mret, rand_ret. rewrite advance_zero.
    split; [done|]. split; [done|]. by intros b times.
  - apply Forall_cons_1 in Hin as [Hin Hins].
    destruct (f32_sum_in_range times Htimes Hin) as (T & HT & HT0 & Hf).
    destruct (sim_inter_time_of_exact n T g HT0) as (row & Hrow & Href).
    destruct (IH (advance g n (n - 1)) Hins) as (rows & Hrows & Hlen & Hall).
    exists (row :: rows). rewrite fmap_cons. cbn [rand_for_each]. rewrite Hf.
    rewrite (rand_bind_run _ _ _ _ _ Hrow), (rand_bind_run _ _ _ _ _ Hrows).
    unfold mret, rand_ret. rewrite advance_advance. split.
    { reflexivity. }
    split; [simpl; by rewrite Hlen|].
    intros [|b] times' Hb; simpl in Hb.
    + injection Hb as <-. exists T, row. rewrite Nat.add_0_r.
      repeat split; try done.
      replace (1 * n)%nat with n by lia.
      by replace (0 * (n - 1))%nat with 0%nat by lia.
    + destruct (Hall b times' Hb) as (T' & row' & HT' & HT0' & Hb' & Href').
      exists T', row'. repeat split; try done.
      rewrite advance_advance in Href'. cbn [advance torch_pos] in Href'.
      replace (torch_pos g + S b * n)%nat
        with (torch_pos g + n + b * n)%nat by lia.
      replace (S (S b) * n)%nat with (n + S b * n)%nat by lia.
      replace (S b * (n - 1))%nat with (n - 1 + b * (n - 1))%nat by lia.
      exact Href'.
Qed.

(** [create_unifrom_d] on a batch of durations whose row totals are inside
    the float32 range: it returns, and row [b] is made from the draws
    number [b * n] to [b * n + n - 1] and the total time of sequence
    [b]. *)
Lemma create_unifrom_d_run event_times n g :
  event_times ≠ [] → rect n event_times →
  Forall (Forall nonneg) event_times →
  Forall (λ times, in_f32 (s_sum times)) event_times →
  ∃ out,
    create_unifrom_d event_times g
    = Ok (out, advance g (length event_times * n)
                 (length event_times * (n - 1)))
    ∧ length out = length event_times
    ∧ ∀ b times, event_times !! b = Some times →
        ∃ T row, s_sum times = Fin T ∧ 0 ≤ T ∧ out !! b = Some row
          ∧ result (np_random_shuffle
                      (gaps_after_zero
                         (merge_sort s_le
                            (scaled_draws g (torch_pos g + b * n) n T))))
              (advance g (S b * n) (b * (n - 1))) = Ok row.
Proof.
  intros Hne Hrect Hpos Hin. unfold create_unifrom_d.
  assert (Hw : snd (shape2 event_times) = n).
  { destruct event_times as [|r t]; [done|]. simpl. by inversion Hrect. }
  destruct (shape2 event_times) as [bs w] eqn:Hshape. simpl in Hw. subst w.
  destruct (create_unifrom_d_loop n event_times g Hpos Hin)
    as (rows & Hrun & Hlen & Hall).
  exists rows. rewrite (rand_bind_run _ _ _ _ _ Hrun).
  split; [|done].
  destruct rows as [|row rows]; [|done].
  destruct event_times; [done|]. simpl in Hlen. lia.
Qed.

(** Every row that [create_unifrom_d] returns on such a batch. *)
Lemma create_unifrom_d_rows_facts event_times n g out g' :
  event_times ≠ [] → rect n event_times →
  Forall (Forall nonneg) event_times →
  Forall (λ times, in_f32 (s_sum times)) event_times →
  create_unifrom_d event_times g = Ok (out, g') →
  length out = length event_times
  ∧ rect n out
  ∧ Forall (Forall nonneg) out
  ∧ ((0 < n)%nat → Forall (λ row, row !! 0%nat = Some zero) out)
  ∧ (unit_draws g →
     Forall2 (λ times row,
         ∃ T, s_sum times = Fin T
              ∧ Forall (λ x, ∃ q, x = Fin q ∧ 0 ≤ q ∧ q ≤ T) row)
       event_times out).
Proof.
  intros Hne Hrect Hpos Hin Hrun.
  destruct (create_unifrom_d_run event_times n g Hne Hrect Hpos Hin)
    as (out' & Hrun' & Hlen & Hall).
  rewrite Hrun in Hrun'. injection Hrun' as <- _.
  assert (Hrow : ∀ b row, out !! b = Some row →
            ∃ times T, event_times !! b = Some times ∧ s_sum times = Fin T
              ∧ length row = n ∧ Forall nonneg row
              ∧ ((0 < n)%nat → row !! 0%nat = Some zero)
              ∧ (unit_draws g →
                 Forall (λ x, ∃ q, x = Fin q ∧ 0 ≤ q ∧ q ≤ T) row)).
  { intros b row Hb.
    destruct (lookup_lt_is_Some_2 event_times b) as (times & Htimes).
    { rewrite <- Hlen. by eapply lookup_lt_Some. }
    destruct (Hall b times Htimes) as (T & row' & HT & HT0 & Hb' & Href).
    rewrite Hb in Hb'. injection Hb' as <-.
    exists times, T. split; [done|]. split; [done|].
    exact (sampled_row_facts g _ n T _ row HT0 Href). }
  split; [done|].
  split; [|split; [|split]].
  - apply Forall_lookup. intros b row Hb.
    by destruct (Hrow b row Hb) as (? & ? & _ & _ & ? & _).
  - apply Forall_lookup. intros b row Hb.
    by destruct (Hrow b row Hb) as (? & ? & _ & _ & _ & ? & _).
  - intros Hn. apply Forall_lookup. intros b row Hb.
    destruct (Hrow b row Hb) as (? & ? & _ & _ & _ & _ & H0 & _). by apply H0.
  - intros Hg. apply Forall2_same_length_lookup. split; [done|].
    intros b times row Htimes Hb.
    destruct (Hrow b row Hb) as (times' & T & Htimes' & HT & _ & _ & _ & Hbd).
    rewrite Htimes in Htimes'. injection Htimes' as <-.
    exists T. split; [done|]. by apply Hbd.
Qed.

(** ** The time sampler *)

Lemma spread_draws_unit : unit_draws spread_draws.
Proof.
  intros k. unfold spread_draws. cbn [torch_draws].
  unfold Qcle, Qclt. cbn [this Q2Qc]. rewrite !Qred_correct.
  unfold Qle, Qlt. cbn [Qnum Qden]. lia.
Qed.

(** C4, as the code has it: for a batch of inter-arrival times that are not
    negative, with at least one sequence and every row total inside the
    float32 range, [create_unifrom_d] returns one row for each sequence.
    The row of sequence [b] is made of the draws number [b * n] to
    [b * n + n - 1] of the torch generator scaled into [[0, T_b]] for the
    total time [T_b] of that sequence: they are sorted ascending and turned
    into gaps of which the first is 0 and every later one the difference of
    two neighbouring samples, and the row is what numpy's shuffle, run on
    these gaps with the next [n - 1] numpy draws, leaves; every entry of
    the row is one of the gaps. *)
Theorem create_unifrom_d_rows event_times n g :
  event_times ≠ [] → rect n event_times →
  Forall (Forall nonneg) event_times →
  Forall (λ times, in_f32 (s_sum times)) event_times →
  unit_draws g →
  ∃ out g', create_unifrom_d event_times g = Ok (out, g')
    ∧ length out = length event_times
    ∧ ∀ b times, event_times !! b = Some times →
        ∃ T sorted row,
          s_sum times = Fin T
          ∧ sorted ≡ₚ scaled_draws g (torch_pos g + b * n) n T
          ∧ Forall (λ x, ∃ q, x = Fin q ∧ 0 ≤ q ∧ q ≤ T) sorted
          ∧ Sorted s_le sorted
          ∧ result (np_random_shuffle (gaps_after_zero sorted))
              (advance g (S b * n) (b * (n - 1))) = Ok row
          ∧ Forall (λ x, x ∈ gaps_after_zero sorted) row
          ∧ out !! b = Some row.
Proof.
  intros Hne Hrect Hpos Hin Hg.
  destruct (create_unifrom_d_run event_times n g Hne Hrect Hpos Hin)
    as (out & Hrun & Hlen & Hall).
  eexists out, _. split; [exact Hrun|]. split; [done|].
  intros b times Hb.
  destruct (Hall b times Hb) as (T & row & HT & HT0 & Hrow & Href).
  set (samples := scaled_draws g (torch_pos g + b * n) n T) in *.
  exists T, (merge_sort s_le samples), row.
  assert (Hperm : merge_sort s_le samples ≡ₚ samples)
    by apply merge_sort_Permutation.
  split; [done|]. split; [done|]. split.
  { rewrite Hperm. by apply scaled_draws_bounded. }
  split; [apply (Sorted_merge_sort s_le)|]. split; [done|]. split; [|done].
  destruct (np_random_shuffle_exact
              (gaps_after_zero (merge_sort s_le samples))
              (advance g (S b * n) (b * (n - 1)))) as (y & Hy & _ & _ & HP).
  unfold result in Href. rewrite Hy in Href. injection Href as <-.
  apply HP, Forall_forall. auto.
Qed.

Lemma create_unifrom_d_rows_witness :
  ∃ out g', create_unifrom_d two_by_three spread_draws = Ok (out, g')
    ∧ length out = length two_by_three
    ∧ ∀ b times, two_by_three !! b = Some times →
        ∃ T sorted row,
          s_sum times = Fin T
          ∧ sorted ≡ₚ scaled_draws spread_draws
                        (torch_pos spread_draws + b * 3) 3 T
          ∧ Forall (λ x, ∃ q, x = Fin q ∧ 0 ≤ q ∧ q ≤ T) sorted
          ∧ Sorted s_le sorted
          ∧ result (np_random_shuffle (gaps_after_zero sorted))
              (advance spread_draws (S b * 3) (b * (3 - 1))) = Ok row
          ∧ Forall (λ x, x ∈ gaps_after_zero sorted) row
          ∧ out !! b = Some row.
Proof.
  apply (create_unifrom_d_rows two_by_three 3 spread_draws).
  - done.
  - repeat constructor.
  - repeat constructor; compute_done.
  - repeat constructor; compute_done.
  - exact spread_draws_unit.
Defined.

(** C4 as stated fails on the first gap: for one sequence of total time 2
    and the draw 1/2 the only sample is 1, the gaps of the specification
    are [[1]], and the code returns [[0]]. *)
Lemma create_unifrom_d_first_gap_counterexample :
  result (uniform_ (zeros 1) zero (rat 2 1)) half_draws = Ok [rat 1 1]
  ∧ spec_gaps (merge_sort s_le [rat 1 1]) = [rat 1 1]
  ∧ result (create_unifrom_d [[rat 2 1]]) half_draws = Ok [[zero]]
  ∧ ¬ [zero] ≡ₚ spec_gaps (merge_sort s_le [rat 1 1]).
Proof.
  split; [compute_done|]. split; [compute_done|]. split; [compute_done|].
  intros H. apply Permutation_singleton_l in H. revert H. compute_done.
Qed.

(** ** The sampler of the loss *)

Lemma rand_for_each_ext {A B} (f f' : A → Rand B) l g :
  (∀ x g1, f x g1 = f' x g1) →
  rand_for_each f l g = rand_for_each f' l g.
Proof.
  intros Hf. revert g; induction l as [|x l IH]; intros g; simpl; [done|].
  unfold mbind, rand_bind. rewrite Hf.
  destruct (f' x g) as [[y g1]|e]; [|done]. by rewrite IH.
Qed.

Lemma rand_for_each_const {A A' B} (m : Rand B) (l : list A) (l' : list A') g :
  length l = length l' →
  rand_for_each (λ _, m) l g = rand_for_each (λ _, m) l' g.
Proof.
  revert l' g; induction l as [|x l IH]; intros [|x' l'] g Hlen;
    simpl in *; try done.
  unfold mbind, rand_bind. destruct (m g) as [[y g1]|e]; [|done].
  by rewrite (IH l' g1) by congruence.
Qed.

Lemma getitem_head {A} (x : A) l : getitem (x :: l) 0 = Ok x.
Proof.
  unfold getitem. simpl length.
  destruct (decide (0 < 0)%Z) as [?|_]; [lia|].
  destruct (decide (0 ≤ 0 < Z.of_nat (S (length l)))%Z) as [_|?]; [done|lia].
Qed.

(** The horizon is shared: the result of [create_unif_d] depends on the
    total times of the batch through the first of them and their number
    only. *)
Lemma create_unif_d_shared_horizon batch_length t0 ts ts' g :
  length ts = length ts' →
  create_unif_d batch_length (t0 :: ts) g
  = create_unif_d batch_length (t0 :: ts') g.
Proof.
  intros Hlen. unfold create_unif_d.
  set (body := t ← torch_rand batch_length; uniform_ t zero t0).
  assert (Hbody : ∀ l g1,
    rand_for_each (λ _ : scalar,
        t ← torch_rand batch_length;
        first ← lift (getitem (t0 :: l) 0);
        uniform_ t zero first) (t0 :: l) g1
    = rand_for_each (λ _ : scalar, body) (t0 :: l) g1).
  { intros l g1. apply rand_for_each_ext. intros _ g2.
    unfold body, mbind, rand_bind. destruct (torch_rand batch_length g2) as [[t g3]|]; [|done].
    by rewrite getitem_head. }
  etrans; [apply rand_bind_congr, Hbody|].
  symmetry. etrans; [apply rand_bind_congr, Hbody|].
  apply rand_bind_congr, rand_for_each_const. simpl. congruence.
Qed.

Lemma torch_rand_run n g :
  ∃ t g', torch_rand n g = Ok (t, g') ∧ length t = n
          ∧ torch_draws g' = torch_draws g.
Proof.
  destruct (torch_units_run n g) as (g' & Hrun & Hd).
  eexists _, g'. unfold torch_rand. rewrite (rand_bind_run _ _ _ _ _ Hrun).
  split; [done|]. split; [|done]. by rewrite !length_fmap, length_seq.
Qed.

Lemma transpose_rows (w : nat) (rows : list vec) (P : scalar → Prop) :
  Forall (λ r, length r = w) rows → Forall (Forall P) rows →
  length (transpose w rows) = w
  ∧ Forall (λ r, length r = length rows) (transpose w rows)
  ∧ Forall (Forall P) (transpose w rows).
Proof.
  intros Hw HP. unfold transpose. split; [by rewrite length_fmap, length_seq|].
  rewrite !Forall_fmap. split; apply Forall_forall; intros j Hj;
    apply elem_of_seq in Hj; unfold compose.
  - clear HP. induction Hw as [|r rows Hr _ IH]; [done|]. simpl.
    destruct (lookup_lt_is_Some_2 r j) as (x & ->); [lia|]. simpl. by f_equal.
  - clear Hw. induction HP as [|r rows Hr _ IH]; [done|]. simpl.
    destruct (r !! j) as [x|] eqn:Hx; [|exact IH]. simpl.
    constructor; [|exact IH]. exact (Forall_lookup_1 _ _ _ _ Hr Hx).
Qed.

(** [create_unif_d] returns one row for each position and one column for
    each sequence, the transposed layout that [forward] walks through, and
    every entry is a duration of [[0, T_0]] for the first total time. *)
Lemma create_unif_d_run batch_length t0 (ts : vec) g :
  0 ≤ t0 → unit_draws g →
  ∃ out g', create_unif_d batch_length (Fin t0 :: ts) g = Ok (out, g')
    ∧ length out = batch_length
    ∧ Forall (λ r, length r = S (length ts)) out
    ∧ Forall (Forall (λ x, ∃ a, x = Fin a ∧ 0 ≤ a ∧ a ≤ t0)) out.
Proof.
  intros Ht0 Hg. unfold create_unif_d.
  destruct (rand_for_each_run (λ g1, torch_draws g1 = torch_draws g)
              (λ (_ : scalar) row, length row = batch_length
                 ∧ Forall (λ x, ∃ a, x = Fin a ∧ 0 ≤ a ∧ a ≤ t0) row)
              (λ _, t ← torch_rand batch_length;
                    first ← lift (getitem (Fin t0 :: ts) 0);
                    uniform_ t zero first) (Fin t0 :: ts) g)
    as (rows & g' & Hrun & _ & Hall); [done| |].
  { intros _ g1 _ Hg1.
    destruct (torch_rand_run batch_length g1) as (t & g2 & Ht & Hlen & Hd2).
    destruct (uniform_run t t0 g2 Ht0) as (g3 & Hu & Hd3).
    eexists _, g3. rewrite (rand_bind_run _ _ _ _ _ Ht).
    unfold mbind at 1, rand_bind. rewrite getitem_head. simpl.
    split; [exact Hu|]. split; [congruence|].
    split; [by rewrite !length_fmap, length_seq|].
    rewrite !Forall_fmap. apply Forall_forall. intros k _. simpl.
    eexists; split; [done|].
    rewrite Hd2, Hg1. destruct (Hg k). by apply scaled_draw_bounds. }
  rewrite (rand_bind_run _ _ _ _ _ Hrun).
  destruct rows as [|row rows]; [by apply Forall2_nil_inv_r in Hall|].
  exists (transpose batch_length (row :: rows)), g'. split; [done|].
  assert (Hlen : length (row :: rows) = S (length ts)).
  { symmetry. exact (Forall2_length _ _ _ Hall). }
  destruct (transpose_rows batch_length (row :: rows)
              (λ x, ∃ a, x = Fin a ∧ 0 ≤ a ∧ a ≤ t0)) as (H1 & H2 & H3).
  - clear -Hall. induction Hall as [|? ? ? ? [? _]]; by constructor.
  - clear -Hall. induction Hall as [|? ? ? ? [_ ?]]; by constructor.
  - split; [done|]. split; [|done]. by rewrite <- Hlen.
Qed.


(** ** The shapes of the two samplers *)

(** C8, as the code has it: [create_unifrom_d], on a batch of
    inter-arrival times that are not negative, with at least one sequence
    and every row total inside the float32 range, returns a tensor of the
    shape [(batch_size, sequence_length)] of its input whose entries are
    finite durations that are not negative.  [create_unif_d], the sampler
    of the loss, for a first total time that is finite and not negative,
    returns such durations in the transposed layout: one row for each of
    the [batch_length] positions and one column for each sequence. *)
Theorem samplers_shape_nonneg (event_times : list vec) n batch_length
    (t0 : Qc) (ts : vec) g :
  event_times ≠ [] → rect n event_times →
  Forall (Forall nonneg) event_times →
  Forall (λ times, in_f32 (s_sum times)) event_times →
  0 ≤ t0 → unit_draws g →
  (∃ out g', create_unifrom_d event_times g = Ok (out, g')
     ∧ shape2 out = shape2 event_times
     ∧ rect n out
     ∧ Forall (Forall nonneg) out)
  ∧ (∃ out g', create_unif_d batch_length (Fin t0 :: ts) g = Ok (out, g')
       ∧ length out = batch_length
       ∧ rect (S (length ts)) out
       ∧ Forall (Forall nonneg) out).
Proof.
  intros Hne Hrect Hpos Hin Ht0 Hg. split.
  - destruct (create_unifrom_d_run event_times n g Hne Hrect Hpos Hin)
      as (out & Hrun & _).
    destruct (create_unifrom_d_rows_facts event_times n g out _
                Hne Hrect Hpos Hin Hrun) as (Hlen & Hout & Hnn & _).
    eexists out, _. split; [exact Hrun|]. split; [|done].
    unfold shape2. rewrite Hlen. f_equal.
    destruct out as [|row out]; [by destruct event_times|].
    destruct event_times as [|times event_times]; [done|].
    inversion Hout; inversion Hrect; congruence.
  - destruct (create_unif_d_run batch_length t0 ts g Ht0 Hg)
      as (out & g' & Hrun & Hlen & Hw & Hbd).
    exists out, g'. repeat split; try done.
    eapply Forall_impl; [exact Hbd|]. intros row Hr.
    eapply Forall_impl; [exact Hr|]. by intros x (q & -> & Hq & _).
Qed.

Lemma samplers_shape_nonneg_witness :
  (∃ out g', create_unifrom_d two_by_three spread_draws = Ok (out, g')
     ∧ shape2 out = shape2 two_by_three
     ∧ rect 3 out
     ∧ Forall (Forall nonneg) out)
  ∧ (∃ out g', create_unif_d 3 (Fin (Q2Qc 4) :: [rat 7 2]) spread_draws
               = Ok (out, g')
       ∧ length out = 3%nat
       ∧ rect (S (length [rat 7 2])) out
       ∧ Forall (Forall nonneg) out).
Proof.
  apply (samplers_shape_nonneg two_by_three 3 3 (Q2Qc 4) [rat 7 2]
           spread_draws).
  - done.
  - repeat constructor.
  - repeat constructor; compute_done.
  - repeat constructor; compute_done.
  - compute_done.
  - exact spread_draws_unit.
Defined.

(** C8 as stated fails.  For a batch of two sequences and three positions
    the sampler of the loss returns three rows of two entries, not two rows
    of three; and on a batch whose one row adds up to more than the largest
    float32, [create_unifrom_d] raises instead of returning. *)
Lemma samplers_shape_counterexample :
  (∃ out g', create_unif_d 3 [rat 1 1; rat 5 1] half_draws = Ok (out, g')
     ∧ shape2 out = (3%nat, 2%nat)
     ∧ shape2 out ≠ (2%nat, 3%nat))
  ∧ result (create_unifrom_d [[rat (3 * 10 ^ 38) 1; rat (3 * 10 ^ 38) 1]])
      half_draws = Raise RuntimeError.
Proof.
  split; [|compute_done].
  destruct (create_unif_d 3 [rat 1 1; rat 5 1] half_draws)
    as [[out g']|e] eqn:Hrun; [|by vm_compute in Hrun].
  exists out, g'. split; [done|].
  assert (Hshape : shape2 out = (3%nat, 2%nat)).
  { assert (Ho : fst <$> create_unif_d 3 [rat 1 1; rat 5 1] half_draws
                 = Ok [[rat 1 2; rat 1 2]; [rat 1 2; rat 1 2];
                       [rat 1 2; rat 1 2]]) by compute_done.
    rewrite Hrun in Ho. injection Ho as ->. done. }
  split; [done|]. by rewrite Hshape.
Qed.

(** C1: the code at a batch of total times 1 and 5 with one sample per
    sequence, every unit draw being 9/10.  Both sequences get the time
    9/10, the draw scaled by the first total time; scaled by its own total
    time, the second sequence would get 9/2. *)
Theorem create_unif_d_first_total_for_all_rows :
  result (create_unif_d 1 [rat 1 1; rat 5 1]) high_draws
  = Ok [[rat 9 10; rat 9 10]]
  ∧ result (uniform_ (zeros 1) zero (rat 5 1)) high_draws = Ok [rat 9 2].
Proof. split; compute_done. Qed.

(** ** The sequence padder *)

Lemma for_each_length {A B} (f : A → res B) l ys :
  for_each f l = Ok ys → length ys = length l.
Proof.
  revert ys; induction l as [|x l IH]; intros ys; simpl.
  - by intros [= <-].
  - unfold mbind, res_bind. destruct (f x) as [y|]; [|done].
    destruct (for_each f l) as [ys'|]; [|done].
    intros [= <-]. simpl. f_equal. by apply IH.
Qed.

Lemma for_each_cons {A B} (f : A → res B) x l :
  for_each f (x :: l) = y ← f x; ys ← for_each f l; mret (y :: ys).
Proof. done. Qed.

Lemma select1_nonempty {A} (t : list (list A)) :
  Forall (λ r, r ≠ []) t → ∃ hs, select1 t 0 = Ok hs ∧ length hs = length t.
Proof.
  unfold select1. induction 1 as [|r t Hr _ (hs & IH & Hlen)]; simpl.
  - by exists [].
  - destruct r as [|x r]; [done|]. rewrite getitem_head, IH.
    exists (x :: hs). split; [done|]. simpl. by rewrite Hlen.
Qed.

Lemma zip_with_cons_const {A B} (c : A) (hs : list B) (t : list (list A)) :
  length hs = length t → zip_with cons ((λ _, c) <$> hs) t = cons c <$> t.
Proof.
  revert t; induction hs as [|h hs IH]; intros [|r t] Hlen;
    simpl in *; try done.
  f_equal. apply IH. congruence.
Qed.

Lemma int64_in_range (z : Z) : (- 2 ^ 63 ≤ z < 2 ^ 63)%Z → int64 z = z.
Proof. intros Hz. unfold int64. rewrite Z.mod_small; lia. Qed.

Lemma rect_rows_nonempty {A} (w : nat) (t : list (list A)) :
  rect w t → (0 < w)%nat → Forall (λ r, r ≠ []) t.
Proof.
  intros Hw Hpos. eapply Forall_impl; [exact Hw|].
  intros r Hr ->. simpl in Hr. lia.
Qed.

(** C9, as the code has it: on a batch whose two buffers have at least one
    column, and for a [type_size] inside the int64 range, the padder
    returns every sequence of types with [type_size] put in front and every
    sequence of times with 0 put in front, the original elements following
    unchanged, and returns the total times and the lengths as given. *)
Theorem BeginningOfStream_pads (seq_events : list (list Z))
    (seq_time : list vec) seq_tot_time seqs_len type_size n m :
  rect n seq_events → rect m seq_time → (0 < n)%nat → (0 < m)%nat →
  (- 2 ^ 63 ≤ type_size < 2 ^ 63)%Z →
  BeginningOfStream (seq_events, seq_time, seq_tot_time, seqs_len) type_size
  = Ok (cons type_size <$> seq_events, cons zero <$> seq_time,
        seq_tot_time, seqs_len).
Proof.
  intros Hn Hm Hn0 Hm0 Hsize. unfold BeginningOfStream.
  destruct (select1_nonempty _ (rect_rows_nonempty _ _ Hn Hn0))
    as (es & -> & Hes).
  destruct (select1_nonempty _ (rect_rows_nonempty _ _ Hm Hm0))
    as (ts & -> & Hts).
  cbn [mbind res_bind]. unfold mret, res_ret.
  rewrite !zip_with_cons_const by done.
  by rewrite Z.add_0_l, int64_in_range.
Qed.

Lemma BeginningOfStream_pads_witness :
  BeginningOfStream scenario 3
  = Ok ([[3; 2; 0; 1]%Z], [[zero; rat 1 1; rat 2 1; rat 1 2]],
        [rat 7 2], [3%nat]).
Proof.
  apply (BeginningOfStream_pads [[2; 0; 1]%Z] [[rat 1 1; rat 2 1; rat 1 2]]
           [rat 7 2] [3%nat] 3 3 3).
  - by repeat constructor.
  - by repeat constructor.
  - lia.
  - lia.
  - lia.
Defined.

(** C9 as stated fails.  On a batch of two sequences without any event the
    buffers have no column and the padder raises an IndexError; and a
    [type_size] of [2^63] does not fit an int64 entry, so the leading type
    is [-2^63]. *)
Lemma BeginningOfStream_counterexample :
  BeginningOfStream ([[]; []], [[]; []], [zero; zero], [0; 0]%nat) 3
  = Raise IndexError
  ∧ BeginningOfStream ([[2]%Z], [[rat 1 1]], [rat 1 1], [1%nat]) (2 ^ 63)
    = Ok ([[- 2 ^ 63; 2]%Z], [[zero; rat 1 1]], [rat 1 1], [1%nat])
  ∧ (- 2 ^ 63 ≠ 2 ^ 63)%Z.
Proof. split; [compute_done|]. split; [compute_done|done]. Qed.

(** ** The loss *)

Lemma getitem_nat {A} (l : list A) i x :
  l !! i = Some x → getitem l (Z.of_nat i) = Ok x.
Proof.
  intros Hi. pose proof (lookup_lt_Some _ _ _ Hi) as Hlt. unfold getitem.
  destruct (decide (Z.of_nat i < 0)%Z) as [?|_]; [lia|].
  destruct (decide (0 ≤ Z.of_nat i < Z.of_nat (length l))%Z) as [_|?]; [|lia].
  by rewrite Nat2Z.id, Hi.
Qed.

Lemma getitem_fmap {A B} (f : A → B) l i :
  getitem (f <$> l) i = f <$> getitem l i.
Proof.
  unfold getitem. rewrite length_fmap.
  repeat case_decide; try done;
    rewrite list_lookup_fmap; by destruct (l !! _).
Qed.

Lemma select1_in_range {A} (t : list (list A)) idx :
  Forall (λ row, (idx < length row)%nat) t → ∃ c, select1 t idx = Ok c.
Proof.
  unfold select1. induction 1 as [|row t Hrow _ (c & IH)]; simpl.
  - by exists [].
  - apply lookup_lt_is_Some_2 in Hrow as (x & Hx).
    rewrite (getitem_nat _ _ _ Hx), IH. by exists (x :: c).
Qed.

(** C2, as the code has it: for a sequence of length 0 and total time 0
    neither term raises; the event term is exactly 0, the Monte-Carlo
    coefficient is the unguarded quotient 0/0, and the integral term is
    therefore NaN. *)
Theorem empty_sequence_terms (log_intensity sim_intensity : list (list vec))
    idx event_seq :
  Forall (λ row, (idx < length row)%nat) log_intensity →
  Forall (λ row, (idx < length row)%nat) sim_intensity →
  event_term log_intensity idx event_seq 0 = Ok zero
  ∧ s_div zero (Fin (of_nat 0)) = NaN
  ∧ integral_term sim_intensity idx zero 0 = Ok NaN.
Proof.
  intros Hlog Hsim.
  destruct (select1_in_range _ _ Hlog) as (c & Hc).
  destruct (select1_in_range _ _ Hsim) as (c' & Hc').
  split; [|split].
  - unfold event_term, at_events. by rewrite Hc.
  - done.
  - unfold integral_term. rewrite Hc'. done.
Qed.

Lemma empty_sequence_terms_witness :
  event_term [[[rat 0 1]]] 0 [1%Z] 0 = Ok zero
  ∧ s_div zero (Fin (of_nat 0)) = NaN
  ∧ integral_term [[[rat 1 2]]] 0 zero 0 = Ok NaN.
Proof.
  apply (empty_sequence_terms [[[rat 0 1]]] [[[rat 1 2]]] 0 [1%Z]).
  - repeat constructor.
  - repeat constructor.
Defined.

(** C2 as stated fails on the integral term: a batch of one sequence of
    length 0 and total time 0 (only the start marker in its buffer) has
    the integral term NaN, not 0, and the loss of the batch is NaN. *)
Lemma empty_sequence_integral_counterexample :
  result (integral_terms clock_model 1 [0%nat] [zero]
            (constant_states 1 1 (rat 1 1))) half_draws = Ok [NaN]
  ∧ NaN ≠ zero
  ∧ result (forward log_rational clock_model [[1%Z]] [[zero]] [0%nat] [zero]
              (constant_states 1 1 (rat 1 1))) half_draws = Ok NaN.
Proof. split; [compute_done|]. split; [done|compute_done]. Qed.

Lemma select1_on_vectors (f : vec → vec) (t : list (list vec)) idx :
  select1 (on_vectors f t) idx = fmap (M := list) f <$> select1 t idx.
Proof.
  unfold select1, on_vectors. induction t as [|row t IH]; [done|].
  rewrite fmap_cons, !for_each_cons, getitem_fmap, IH.
  destruct (getitem row _); [|done]. simpl.
  by destruct (for_each _ t).
Qed.

Lemma at_events_on_vectors (f : scalar → scalar) (t : list (list vec))
    idx event_seq seq_len :
  at_events (on_vectors (fmap f) t) idx event_seq seq_len
  = fmap (M := list) f <$> at_events t idx event_seq seq_len.
Proof.
  unfold at_events. rewrite select1_on_vectors.
  destruct (select1 t idx) as [c|]; [|done]. simpl.
  destruct (index_pairs _ _) as [pairs|]; [|done]. simpl.
  induction pairs as [|[a p] pairs IH]; simpl; [done|].
  rewrite getitem_fmap. destruct (getitem c _) as [row|]; [|done]. simpl.
  rewrite getitem_fmap. destruct (getitem row p) as [v|]; [|done]. simpl.
  rewrite IH. clear IH. destruct (for_each _ pairs); reflexivity.
Qed.

Lemma event_term_on_logs (t_log : scalar → scalar)
    (intensity : list (list vec)) idx event_seq seq_len :
  event_term (on_vectors (fmap t_log) intensity) idx event_seq seq_len
  = (λ vals, s_sum (t_log <$> vals))
      <$> at_events intensity idx event_seq seq_len.
Proof.
  unfold event_term. rewrite at_events_on_vectors.
  by destruct (at_events intensity idx event_seq seq_len).
Qed.

Lemma for_each_ext {A B} (f f' : A → res B) l :
  (∀ x, f x = f' x) → for_each f l = for_each f' l.
Proof.
  intros Hf. induction l as [|x l IH]; [done|].
  by rewrite !for_each_cons, Hf, IH.
Qed.

(** C3, as the code has it: the first loop of [forward] takes the logarithm
    of the intensities as the intensity layer returns them, without a clamp
    or a floor: the event term of every sequence is the sum of the
    logarithms of the raw intensities at its observed events, whatever
    these intensities are. *)
Theorem event_terms_log_raw_intensity (t_log : scalar → scalar)
    (model : nhp_model) (event_seqs : list (list Z))
    (seqs_length : list nat) (output : decay_states) :
  event_terms t_log model event_seqs seqs_length output
  = for_each (λ '(idx, (event_seq, seq_len)),
        (λ raw, s_sum (t_log <$> raw))
          <$> at_events
                (on_vectors (intensity_layer model) (hidden_t output))
                idx event_seq seq_len)
      (enumerate (zip event_seqs seqs_length)).
Proof.
  unfold event_terms. apply for_each_ext.
  intros [idx [event_seq seq_len]]. apply event_term_on_logs.
Qed.

(** C3 as stated fails: an intensity of 0 at the one observed event reaches
    the logarithm unchanged, the event term is -inf and the loss +inf. *)
Lemma zero_intensity_counterexample :
  at_events (on_vectors (intensity_layer clock_model)
               (hidden_t (constant_states 2 1 zero))) 0 [1; 0]%Z 1
  = Ok [zero]
  ∧ log_rational zero = NInf
  ∧ event_terms log_rational clock_model [[1; 0]%Z] [1%nat]
      (constant_states 2 1 zero) = Ok [NInf]
  ∧ result (forward log_rational clock_model [[1; 0]%Z] [[zero; rat 1 1]]
              [1%nat] [rat 1 1] (constant_states 2 1 zero)) half_draws
    = Ok PInf.
Proof. repeat split; compute_done. Qed.

(** C7: the code at a batch of two sequences that differ in their total
    time only (1 and 5), in both orders, every unit draw being 1/2.  The
    sequence of total time 1 has the Monte-Carlo term 1/2 when it comes
    first and 5/2 when it comes second, the other one 5/2 and 25/2, and
    the loss of the batch goes from 3 to 15. *)
Theorem forward_depends_on_batch_order :
  let events := [[1; 0]; [1; 0]]%Z in
  let times := [[zero; rat 1 1]; [zero; rat 1 1]] in
  let states := constant_states 2 2 (rat 1 1) in
  result (integral_terms clock_model 2 [1; 1]%nat [rat 1 1; rat 5 1] states)
    half_draws = Ok [rat 1 2; rat 5 2]
  ∧ result (integral_terms clock_model 2 [1; 1]%nat [rat 5 1; rat 1 1] states)
      half_draws = Ok [rat 25 2; rat 5 2]
  ∧ result (forward log_rational clock_model events times [1; 1]%nat
              [rat 1 1; rat 5 1] states) half_draws = Ok (rat 3 1)
  ∧ result (forward log_rational clock_model events times [1; 1]%nat
              [rat 5 1; rat 1 1] states) half_draws = Ok (rat 15 1).
Proof. repeat split; compute_done. Qed.

(** ** The predictor: lists indexed by grid point *)

Lemma for_each_ok {A B} (f : A → res B) (g : A → B) l :
  (∀ x, x ∈ l → f x = Ok (g x)) → for_each f l = Ok (g <$> l).
Proof.
  induction l as [|x l IH]; intros Hf; [done|].
  rewrite for_each_cons, Hf by left. simpl.
  rewrite IH; [done|]. intros y Hy. apply Hf. by right.
Qed.

Lemma zip_with_fmap_same {A B C D} (f : B → C → D) (g : A → B) (h : A → C) l :
  zip_with f (g <$> l) (h <$> l) = (λ x, f (g x) (h x)) <$> l.
Proof. induction l as [|x l IH]; csimpl; [done|]. by rewrite IH. Qed.

Lemma neighbours_seq {A B} (f : A → A → B) (F : nat → A) n :
  zip_with f (drop 1 (F <$> seq 0 (S n)))
    (take (length (F <$> seq 0 (S n)) - 1) (F <$> seq 0 (S n)))
  = (λ i, f (F (S i)) (F i)) <$> seq 0 n.
Proof.
  rewrite length_fmap, length_seq, <- fmap_take, <- fmap_drop, take_seq.
  replace ((S n - 1) `min` S n)%nat with n by lia.
  simpl drop. rewrite drop_0, <- fmap_S_seq, <- list_fmap_compose.
  apply (zip_with_fmap_same f (F ∘ S) F).
Qed.

Lemma cumsum_from_seq (f : nat → scalar) acc a m :
  cumsum_from acc (f <$> seq a m)
  = (λ i, foldl s_add acc (f <$> seq a (S (i - a)))) <$> seq a m.
Proof.
  revert acc a; induction m as [|m IH]; intros acc a; simpl; [done|].
  rewrite Nat.sub_diag. simpl. f_equal. rewrite IH.
  apply list_fmap_ext. intros k i Hi.
  apply list_elem_of_lookup_2, elem_of_seq in Hi.
  by replace (i - a)%nat with (S (i - S a)) by lia.
Qed.

Lemma survival_density_seq t_exp step (total : nat → scalar) m :
  survival_density t_exp step (total <$> seq 0 m)
  = spec_density t_exp step total <$> seq 0 m.
Proof.
  unfold survival_density, cumsum.
  rewrite <- list_fmap_compose, cumsum_from_seq, <- list_fmap_compose.
  rewrite zip_with_fmap_same. apply list_fmap_ext. intros _ i _.
  unfold spec_density, spec_hazard, s_sum. simpl. by rewrite Nat.sub_0_r.
Qed.

Lemma s_add_comm x y : s_add x y = s_add y x.
Proof. destruct x, y; simpl; try done. by rewrite Qcplus_comm. Qed.

Lemma half_step (step : Qc) : step * Q2Qc (1 # 2) = step / (1 + 1).
Proof.
  apply Qc_is_canon. unfold Qcdiv, Qcmult, Qcinv, Qcplus. simpl.
  rewrite !Qred_correct. reflexivity.
Qed.

Lemma trapeze_time_seq step (grid : nat → Qc) (density : nat → scalar) n :
  trapeze_time step ((λ i, Fin (grid i)) <$> seq 0 (S n)) (density <$> seq 0 (S n))
  = spec_trapezoid step (λ i, s_mul (Fin (grid i)) (density i)) n.
Proof.
  unfold trapeze_time, spec_trapezoid, neighbour_sums.
  rewrite zip_with_fmap_same.
  rewrite (neighbours_seq s_add (λ i, s_mul (Fin (grid i)) (density i)) n).
  rewrite <- list_fmap_compose. f_equal. apply list_fmap_ext. intros _ i _.
  simpl. by rewrite half_step, s_add_comm.
Qed.

(** ** The prediction at one position *)

Lemma of_nat_nonzero n : (0 < n)%nat → of_nat n ≠ 0.
Proof.
  intros Hn. unfold of_nat. rewrite <- Z2Qc_inj_0. intros H.
  apply Z2Qc_inj in H. lia.
Qed.

Lemma py_div_nat hmax n :
  (0 < n)%nat → py_div hmax (Z.of_nat n) = Ok (hmax / of_nat n).
Proof.
  intros Hn. unfold py_div. destruct (decide (Z.of_nat n = 0)%Z); [lia|done].
Qed.

Lemma linspace_grid hmax n :
  linspace 0 hmax (Z.of_nat n + 1)
  = Ok ((λ i, Fin (spec_grid (hmax / of_nat n) i)) <$> seq 0 (S n)).
Proof.
  unfold linspace. destruct (decide (Z.of_nat n + 1 < 0)%Z); [lia|].
  replace (Z.to_nat (Z.of_nat n + 1)) with (S n) by lia.
  replace (Z.of_nat n + 1 - 1)%Z with (Z.of_nat n) by lia.
  f_equal. apply list_fmap_ext. intros _ i _. f_equal.
  unfold spec_grid, of_nat.
  by rewrite Qcplus_0_l, (right_id 0 Qcminus).
Qed.

Lemma broadcast2_same f (a b : vec) :
  length a = length b → broadcast2 f a b = Ok (zip_with f a b).
Proof. intros H. unfold broadcast2. by destruct (decide _). Qed.

Lemma decayed_same t_exp (x decay : vec) dt :
  length x = length decay →
  decayed t_exp x decay dt
  = Ok (zip_with s_mul x (t_exp <$> ((λ d, s_mul (s_neg d) dt) <$> decay))).
Proof.
  intros H. unfold decayed. apply broadcast2_same.
  by rewrite !length_fmap.
Qed.

Lemma grid_intensity_seq t_exp model (h_t decay : vec) (grid : nat → Qc) m :
  length h_t = length decay →
  grid_intensity t_exp model h_t decay ((λ i, Fin (grid i)) <$> seq 0 m)
  = Ok ((λ i, decayed_intensity t_exp model h_t decay (grid i)) <$> seq 0 m).
Proof.
  intros H. unfold grid_intensity.
  rewrite (for_each_ok _
    (λ dt, zip_with s_mul h_t (t_exp <$> ((λ d, s_mul (s_neg d) dt) <$> decay))))
    by (intros dt _; by apply decayed_same).
  simpl. unfold mret, res_ret. f_equal.
  by rewrite <- !list_fmap_compose.
Qed.

(** The prediction in terms of the grid index: the predicted time is the
    trapezoidal sum of the specification, the predicted type the [argmax]
    of the scores. *)
Lemma predict_next_run t_exp model (h_t decay : vec) hmax n :
  (0 < n)%nat → length h_t = length decay →
  let step := hmax / of_nat n in
  let I := λ i, decayed_intensity t_exp model h_t decay (spec_grid step i) in
  let total := λ i, s_sum (I i) in
  let density := spec_density t_exp step total in
  predict_next t_exp model h_t decay hmax (Z.of_nat n)
  = (λ k, (spec_trapezoid step
             (λ i, s_mul (Fin (spec_grid step i)) (density i)) n, k))
      <$> argmax (type_scores step (I <$> seq 0 (S n)) (total <$> seq 0 (S n))
                    (density <$> seq 0 (S n))).
Proof.
  intros Hn Hlen step I total density. unfold predict_next.
  rewrite py_div_nat by done. cbn [mbind res_bind].
  rewrite linspace_grid. cbn [mbind res_bind]. fold step.
  rewrite (grid_intensity_seq _ _ _ _ (spec_grid step)) by done.
  cbn [mbind res_bind]. fold I. rewrite <- list_fmap_compose.
  change (s_sum ∘ I) with total.
  rewrite survival_density_seq. fold density.
  rewrite trapeze_time_seq.
  by destruct (argmax _).
Qed.

(** ** The scores of the event types *)

Lemma foldl_zip_length (acc : vec) (rows : list vec) K :
  length acc = K → Forall (λ r, length r = K) rows →
  length (foldl (zip_with s_add) acc rows) = K.
Proof.
  intros Hacc Hrows. revert acc Hacc.
  induction Hrows as [|r rows Hr _ IH]; intros acc Hacc; simpl; [done|].
  apply IH. rewrite length_zip_with. lia.
Qed.

Lemma sum_dim0_length (rows : list vec) K :
  rows ≠ [] → Forall (λ r, length r = K) rows → length (sum_dim0 rows) = K.
Proof.
  intros Hne Hrows. unfold sum_dim0. apply foldl_zip_length; [|done].
  destruct rows as [|r rows]; [done|]. simpl.
  inversion Hrows; subst. unfold zeros. by rewrite length_replicate.
Qed.

(** The rows that [type_scores] adds up, by grid index. *)
Lemma type_scores_seq step (I : nat → vec) (total density : nat → scalar) n :
  type_scores step (I <$> seq 0 (S n)) (total <$> seq 0 (S n))
    (density <$> seq 0 (S n))
  = sum_dim0
      ((λ i, s_mul (Fin (step * Q2Qc (1 # 2)))
               <$> zip_with s_add
                     ((λ x, s_mul (s_div x (total (S i))) (density (S i))) <$> I (S i))
                     ((λ x, s_mul (s_div x (total i)) (density i)) <$> I i))
         <$> seq 0 n).
Proof.
  unfold type_scores. unfold zip at 1.
  rewrite (zip_with_fmap_same pair total density).
  rewrite (zip_with_fmap_same _ I (λ i, (total i, density i))).
  rewrite (neighbours_seq (zip_with s_add)
             (λ i, (λ x, s_mul (s_div x (total i)) (density i)) <$> I i) n).
  by rewrite <- list_fmap_compose.
Qed.

Lemma type_scores_length step (I : nat → vec) total density n K :
  (0 < n)%nat → (∀ i, length (I i) = K) →
  length (type_scores step (I <$> seq 0 (S n)) (total <$> seq 0 (S n))
            (density <$> seq 0 (S n))) = K.
Proof.
  intros Hn HI. rewrite type_scores_seq. apply sum_dim0_length.
  - destruct n; [lia|done].
  - rewrite Forall_fmap. apply Forall_forall. intros i _. simpl.
    rewrite length_fmap, length_zip_with, !length_fmap, !HI. lia.
Qed.

Lemma argmax_nonempty (x : vec) : x ≠ [] → ∃ k, argmax x = Ok k.
Proof. destruct x as [|v x]; [done|]. intros _. by eexists. Qed.

(** The prediction returns when the hidden state and the decay rate have
    one size and the model has at least one event type. *)
Lemma predict_next_returns t_exp model (h_t decay : vec) hmax n K :
  (0 < n)%nat → length h_t = length decay → intensity_shape model K →
  let step := hmax / of_nat n in
  let total := λ i,
    s_sum (decayed_intensity t_exp model h_t decay (spec_grid step i)) in
  let density := spec_density t_exp step total in
  ∃ k, predict_next t_exp model h_t decay hmax (Z.of_nat n)
       = Ok (spec_trapezoid step
               (λ i, s_mul (Fin (spec_grid step i)) (density i)) n, k).
Proof.
  intros Hn Hlen [HK Hil] step total density.
  rewrite predict_next_run by done. fold step.
  match goal with |- context [argmax ?x] =>
    destruct (argmax_nonempty x) as (k & ->) end.
  - intros Hnil. apply (f_equal length) in Hnil.
    rewrite (type_scores_length _ _ _ _ _ K) in Hnil; [simpl in Hnil; lia|done|].
    intros i. apply Hil.
  - by exists k.
Qed.

(** C6: for a sample count [n >= 1], the grid of the predictor has the
    [n + 1] points [i * step] for [step = hmax / n], from 0 to [hmax] and
    [step] apart; with the cumulative hazard at a grid point the running
    sum of [step * total intensity] up to it, and the density the total
    intensity times [exp] of minus that hazard, the predicted time is the
    trapezoidal sum of [t * density(t)] over the grid. *)
Theorem predict_next_trapezoid t_exp model (h_t decay : vec) hmax n K :
  (0 < n)%nat → length h_t = length decay → intensity_shape model K →
  let step := hmax / of_nat n in
  let total := λ i,
    s_sum (decayed_intensity t_exp model h_t decay (spec_grid step i)) in
  let density := spec_density t_exp step total in
  linspace 0 hmax (Z.of_nat n + 1)
  = Ok ((λ i, Fin (spec_grid step i)) <$> seq 0 (S n))
  ∧ spec_grid step 0 = 0
  ∧ spec_grid step n = hmax
  ∧ (∀ i, spec_grid step (S i) - spec_grid step i = step)
  ∧ ∃ k, predict_next t_exp model h_t decay hmax (Z.of_nat n)
         = Ok (spec_trapezoid step
                 (λ i, s_mul (Fin (spec_grid step i)) (density i)) n, k).
Proof.
  intros Hn Hlen HK step total density.
  split; [apply linspace_grid|]. split; [|split; [|split]].
  - unfold spec_grid, of_nat. change (Z.of_nat 0) with 0%Z.
    by rewrite Z2Qc_inj_0, Qcmult_0_l.
  - unfold spec_grid, step. apply Qcmult_div_r. by apply of_nat_nonzero.
  - intros i. unfold spec_grid, of_nat.
    rewrite Nat2Z.inj_succ, <- Z.add_1_r, Z2Qc_inj_add, Z2Qc_inj_1. ring.
  - by apply (predict_next_returns t_exp model h_t decay hmax n K).
Qed.

Lemma predict_next_trapezoid_witness :
  let step := Q2Qc 40 / of_nat 4 in
  let total := λ i,
    s_sum (decayed_intensity exp_rational clock_model [rat 1 1] [rat 0 1]
             (spec_grid step i)) in
  let density := spec_density exp_rational step total in
  linspace 0 (Q2Qc 40) (Z.of_nat 4 + 1)
  = Ok ((λ i, Fin (spec_grid step i)) <$> seq 0 5)
  ∧ spec_grid step 0 = 0
  ∧ spec_grid step 4 = Q2Qc 40
  ∧ (∀ i, spec_grid step (S i) - spec_grid step i = step)
  ∧ ∃ k, predict_next exp_rational clock_model [rat 1 1] [rat 0 1]
           (Q2Qc 40) (Z.of_nat 4)
         = Ok (spec_trapezoid step
                 (λ i, s_mul (Fin (spec_grid step i)) (density i)) 4, k).
Proof.
  apply (predict_next_trapezoid exp_rational clock_model [rat 1 1] [rat 0 1]
           (Q2Qc 40) 4 1).
  - lia.
  - reflexivity.
  - split; [lia|]. intros h. reflexivity.
Defined.

(** ** A hidden state without intensity *)

Lemma s_sum_zeros (l : vec) : Forall (λ x, x = zero) l → s_sum l = zero.
Proof.
  unfold s_sum. induction 1 as [|x l -> _ IH]; [done|].
  change (foldl s_add zero (zero :: l)) with (foldl s_add (s_add zero zero) l).
  by rewrite s_add_zero_l.
Qed.

Lemma s_neg_zero : s_neg zero = zero.
Proof. unfold zero. simpl. f_equal. Qed.

Lemma s_mul_fin_zero a : s_mul (Fin a) zero = zero.
Proof. unfold zero. simpl. by rewrite Qcmult_0_r. Qed.

Lemma s_mul_zero_fin a : s_mul zero (Fin a) = zero.
Proof. unfold zero. simpl. by rewrite Qcmult_0_l. Qed.

(** Whatever is divided by a zero total and multiplied by a zero density
    is NaN. *)
Lemma quotient_times_zero x : s_mul (s_div x zero) zero = NaN.
Proof.
  destruct x as [a| | |]; unfold zero; simpl; try done.
  by destruct (a ?= 0).
Qed.

Lemma foldl_zip_nan (acc : vec) (rows : list vec) K :
  length acc = K → rows ≠ [] → Forall (λ r, r = replicate K NaN) rows →
  foldl (zip_with s_add) acc rows = replicate K NaN.
Proof.
  intros Hacc Hne Hrows. revert acc Hacc Hne.
  induction Hrows as [|r rows -> _ IH]; intros acc Hacc Hne; [done|].
  simpl.
  assert (Hfirst : zip_with s_add acc (replicate K NaN) = replicate K NaN).
  { rewrite zip_with_replicate_r_eq by done. rewrite <- Hacc.
    apply const_fmap. intros _ x _. by destruct x. }
  rewrite Hfirst. destruct rows as [|r' rows]; [done|].
  apply IH; [by rewrite length_replicate|done].
Qed.

Lemma argmax_from_nan best_idx idx (x : vec) :
  argmax_from best_idx NaN idx x = best_idx.
Proof.
  revert idx; induction x as [|v x IH]; intros idx; simpl; [done|].
  destruct v; apply IH.
Qed.

Lemma argmax_nans K : (0 < K)%nat → argmax (replicate K NaN) = Ok 0%nat.
Proof.
  destruct K as [|K]; [lia|]. intros _. simpl. by rewrite argmax_from_nan.
Qed.

Lemma sum_dim0_nan (rows : list vec) K :
  rows ≠ [] → Forall (λ r, r = replicate K NaN) rows →
  sum_dim0 rows = replicate K NaN.
Proof.
  intros Hne Hrows. unfold sum_dim0. apply foldl_zip_nan; [|done|done].
  destruct rows as [|r rows]; [done|]. simpl.
  inversion Hrows; subst. unfold zeros. by rewrite !length_replicate.
Qed.

(** C5, as the code has it: when the total intensity is 0 at every grid
    point, the call returns without an error; the density is 0 on the
    whole grid, so the predicted time is exactly 0; every type score is
    the NaN of 0/0, and the [argmax] of the scores is the index 0. *)
Theorem predict_next_zero_intensity t_exp model (h_t decay : vec) hmax n K :
  (0 < n)%nat → length h_t = length decay → intensity_shape model K →
  t_exp zero = Fin 1 →
  (∀ i, (i ≤ n)%nat →
     s_sum (decayed_intensity t_exp model h_t decay
              (spec_grid (hmax / of_nat n) i)) = zero) →
  predict_next t_exp model h_t decay hmax (Z.of_nat n) = Ok (zero, 0%nat).
Proof.
  intros Hn Hlen [HK Hil] Hexp Hzero.
  rewrite predict_next_run by done.
  set (step := hmax / of_nat n) in *.
  set (I := λ i, decayed_intensity t_exp model h_t decay (spec_grid step i)).
  set (total := λ i, s_sum (I i)).
  set (density := spec_density t_exp step total).
  assert (Htot : ∀ i, (i ≤ n)%nat → total i = zero) by (intros i Hi; by apply Hzero).
  assert (Hdens : ∀ i, (i ≤ n)%nat → density i = zero).
  { intros i Hi. unfold density, spec_density.
    assert (spec_hazard step total i = zero) as ->.
    { unfold spec_hazard. apply s_sum_zeros.
      rewrite Forall_fmap. apply Forall_forall. intros j Hj.
      apply elem_of_seq in Hj. unfold compose; cbn beta.
      rewrite Htot by lia. apply s_mul_fin_zero. }
    rewrite s_neg_zero, Hexp, Htot by done. apply s_mul_zero_fin. }
  assert (Htime : spec_trapezoid step
            (λ i, s_mul (Fin (spec_grid step i)) (density i)) n = zero).
  { unfold spec_trapezoid. apply s_sum_zeros.
    rewrite Forall_fmap. apply Forall_forall. intros i Hi.
    apply elem_of_seq in Hi. unfold compose; cbn beta.
    rewrite !Hdens by lia.
    rewrite (s_mul_fin_zero (spec_grid step i)),
      (s_mul_fin_zero (spec_grid step (S i))), s_add_zero_l.
    apply s_mul_fin_zero. }
  assert (Hscores : type_scores step (I <$> seq 0 (S n)) (total <$> seq 0 (S n))
                      (density <$> seq 0 (S n)) = replicate K NaN).
  { rewrite type_scores_seq. apply sum_dim0_nan.
    - destruct n; [lia|done].
    - rewrite Forall_fmap. apply Forall_forall. intros i Hi.
      apply elem_of_seq in Hi. unfold compose; cbn beta.
      rewrite !Htot, !Hdens by lia.
      rewrite !(const_fmap (λ x, s_mul (s_div x zero) zero) _ NaN)
        by (intros; apply quotient_times_zero).
      unfold I, decayed_intensity. rewrite !Hil.
      by rewrite zip_with_replicate, fmap_replicate. }
  change ((λ k, (spec_trapezoid step
                   (λ i, s_mul (Fin (spec_grid step i)) (density i)) n, k))
            <$> argmax (type_scores step (I <$> seq 0 (S n))
                          (total <$> seq 0 (S n)) (density <$> seq 0 (S n)))
          = Ok (zero, 0%nat)).
  rewrite Htime, Hscores, argmax_nans by done. done.
Qed.

Lemma predict_next_zero_intensity_witness :
  predict_next exp_rational silent_model [rat 1 1] [rat 1 1] (Q2Qc 40)
    (Z.of_nat 4) = Ok (zero, 0%nat).
Proof.
  apply (predict_next_zero_intensity exp_rational silent_model
           [rat 1 1] [rat 1 1] (Q2Qc 40) 4 2).
  - lia.
  - reflexivity.
  - split; [lia|]. intros h. reflexivity.
  - vm_compute. reflexivity.
  - intros i _. vm_compute. reflexivity.
Defined.

(** C5 as stated fails on the predicted time: with intensities that are 0
    everywhere, the horizon 40 and 1000 samples, the predicted time is 0,
    not a value near the horizon. *)
Lemma zero_intensity_time_counterexample :
  predict_next exp_rational silent_model [rat 1 1] [rat 1 1] (Q2Qc 40) 1000
  = Ok (zero, 0%nat)
  ∧ zero ≠ Fin (Q2Qc 40).
Proof. split; compute_done. Qed.

(** ** The loop of [predict_event] *)

Lemma getitem_Z {A} (l : list A) (i : Z) :
  (0 ≤ i < Z.of_nat (length l))%Z →
  ∃ x, getitem l i = Ok x ∧ l !! Z.to_nat i = Some x.
Proof.
  intros Hi.
  destruct (lookup_lt_is_Some_2 l (Z.to_nat i)) as (x & Hx); [lia|].
  exists x. split; [|done].
  rewrite <- (Z2Nat.id i) by lia. by apply getitem_nat.
Qed.

Lemma for_fold_app {S A} (f : S → A → res S) l1 l2 s :
  for_fold f (l1 ++ l2) s = s' ← for_fold f l1 s; for_fold f l2 s'.
Proof.
  revert s; induction l1 as [|x l1 IH]; intros s; simpl; [done|].
  destruct (f s x) as [s1|]; simpl; [apply IH|done].
Qed.

Lemma py_range_snoc m :
  py_range 1 (1 + Z.of_nat (S m))
  = py_range 1 (1 + Z.of_nat m) ++ [(1 + Z.of_nat m)%Z].
Proof.
  unfold py_range.
  replace (Z.to_nat (1 + Z.of_nat (S m) - 1)) with (S m) by lia.
  replace (Z.to_nat (1 + Z.of_nat m - 1)) with m by lia.
  by rewrite seq_S, fmap_app.
Qed.

(** One pass of the loop, at a position [i] for which [i + 1] is still
    inside the sequence. *)
Lemma predict_step_run t_exp t_tanh model (seq_time : vec) (seq_events : list Z)
    hmax n H K st i :
  cell_shape model H → intensity_shape model K → (0 < n)%nat →
  length seq_events = length seq_time →
  (1 ≤ i)%Z → (i + 1 < Z.of_nat (length seq_time))%Z →
  ∃ st' gt_dt gt_type pred_dt pred_type,
    predict_step t_exp t_tanh model seq_time seq_events hmax (Z.of_nat n) st i
    = Ok st'
    ∧ seq_time !! Z.to_nat (i + 1) = Some gt_dt
    ∧ seq_events !! Z.to_nat (i + 1) = Some gt_type
    ∧ times_gt st'
      = (if decide (1 < i)%Z then times_gt st ++ [gt_dt] else times_gt st)
    ∧ times_pred st'
      = (if decide (1 < i)%Z then times_pred st ++ [pred_dt] else times_pred st)
    ∧ types_gt st'
      = (if decide (1 < i)%Z then types_gt st ++ [gt_type] else types_gt st)
    ∧ types_pred st'
      = (if decide (1 < i)%Z then types_pred st ++ [pred_type] else types_pred st).
Proof.
  intros Hcell HK Hn Hlen Hi1 Hi2. unfold predict_step.
  destruct (getitem_Z seq_events i) as (event & -> & _); [lia|].
  cbn [mbind res_bind].
  specialize (Hcell (Embedding model event) (st_h st) (st_c st) (st_c_target st)).
  destruct (CTLSTM_cell model _ _ _ _) as [[[c c_target] o] d].
  destruct Hcell as (Hc & Ho & Hd).
  destruct (getitem_Z seq_time i) as (dt & -> & _); [lia|].
  cbn [mbind res_bind].
  rewrite decayed_same by congruence. cbn [mbind res_bind].
  set (c' := zip_with s_mul c _).
  assert (Hc' : length c' = H).
  { unfold c'. rewrite length_zip_with, !length_fmap. lia. }
  rewrite broadcast2_same by (rewrite length_fmap; congruence).
  cbn [mbind res_bind].
  set (h := zip_with s_mul o _).
  assert (Hh : length h = length d).
  { unfold h. rewrite length_zip_with, length_fmap. lia. }
  destruct (getitem_Z seq_events (i + 1)) as (gt_type & -> & Hgt_type); [lia|].
  destruct (getitem_Z seq_time (i + 1)) as (gt_dt & -> & Hgt_dt); [lia|].
  cbn [mbind res_bind].
  destruct (predict_next_returns t_exp model h d hmax n K Hn Hh HK)
    as (pred_type & ->).
  cbn [mbind res_bind]. unfold mret, res_ret.
  eexists _, gt_dt, gt_type, _, pred_type. split; [done|].
  split; [done|]. split; [done|].
  destruct (decide (1 < i)%Z); done.
Qed.

Lemma predict_loop t_exp t_tanh model (seq_time : vec) (seq_events : list Z)
    hmax n H K m st :
  cell_shape model H → intensity_shape model K → (0 < n)%nat →
  length seq_events = length seq_time →
  (m ≤ length seq_time - 2)%nat →
  ∃ st',
    for_fold (predict_step t_exp t_tanh model seq_time seq_events hmax (Z.of_nat n))
      (py_range 1 (1 + Z.of_nat m)) st = Ok st'
    ∧ times_gt st' = times_gt st ++ take (m - 1) (drop 3 seq_time)
    ∧ types_gt st' = types_gt st ++ take (m - 1) (drop 3 seq_events)
    ∧ length (times_pred st') = (length (times_pred st) + (m - 1))%nat
    ∧ length (types_pred st') = (length (types_pred st) + (m - 1))%nat.
Proof.
  intros Hcell HK Hn Hlen. induction m as [|m IH]; intros Hm.
  - exists st. simpl. rewrite !app_nil_r. repeat split; lia.
  - destruct IH as (st1 & Hrun & Htg & Hyg & Htp & Hyp); [lia|].
    destruct (predict_step_run t_exp t_tanh model seq_time seq_events hmax n
                H K st1 (1 + Z.of_nat m) Hcell HK Hn Hlen)
      as (st2 & gt_dt & gt_type & pred_dt & pred_type
          & Hstep & Hdt & Hty & Htg2 & Htp2 & Hyg2 & Hyp2); [lia|lia|].
    exists st2. rewrite py_range_snoc, for_fold_app, Hrun.
    cbn [mbind res_bind for_fold]. rewrite Hstep. split; [done|].
    rewrite Htg2, Htp2, Hyg2, Hyp2, Htg, Hyg.
    destruct (decide (1 < 1 + Z.of_nat m)%Z) as [Hrec|Hrec].
    + replace (S m - 1)%nat with (S (m - 1)) by lia.
      replace (Z.to_nat (1 + Z.of_nat m + 1)) with (3 + (m - 1))%nat in * by lia.
      rewrite (take_S_r (drop 3 seq_time) (m - 1) gt_dt)
        by (by rewrite lookup_drop).
      rewrite (take_S_r (drop 3 seq_events) (m - 1) gt_type)
        by (by rewrite lookup_drop).
      rewrite !length_app, !app_assoc. simpl. repeat split; lia.
    + replace m with 0%nat in * by lia. simpl in *. repeat split; lia.
Qed.

(** C10: for a padded sequence (as many types as times), a model whose
    layers keep their shapes and a positive sample count, [predict_event]
    returns four lists of [max 0 (seq_length - 2)] entries each, for
    [seq_length] the number of times minus one: the loop runs over the
    positions 1 to [seq_length - 1] and records from position 2 on, so
    the recorded ground truths are the times and the types from index 3
    on; for [seq_length <= 2] all four lists are empty. *)
Theorem predict_event_records t_exp t_tanh model (seq_time : vec)
    (seq_events : list Z) hmax n_samples H K :
  cell_shape model H → intensity_shape model K → (0 < n_samples)%Z →
  length seq_events = length seq_time →
  let seq_length := (Z.of_nat (length seq_time) - 1)%Z in
  ∃ tg tp yg yp,
    predict_event t_exp t_tanh model seq_time seq_events hmax n_samples
    = Ok (tg, tp, yg, yp)
    ∧ tg = drop 3 seq_time ∧ yg = drop 3 seq_events
    ∧ length tg = Z.to_nat (seq_length - 2)
    ∧ length tp = Z.to_nat (seq_length - 2)
    ∧ length yg = Z.to_nat (seq_length - 2)
    ∧ length yp = Z.to_nat (seq_length - 2)
    ∧ ((seq_length ≤ 2)%Z → tg = [] ∧ tp = [] ∧ yg = [] ∧ yp = []).
Proof.
  intros Hcell HK Hn Hlen seq_length. unfold predict_event. fold seq_length.
  set (m := (length seq_time - 2)%nat).
  assert (Hrange : py_range 1 seq_length = py_range 1 (1 + Z.of_nat m)).
  { unfold py_range, seq_length, m. do 2 f_equal. lia. }
  rewrite Hrange, <- (Z2Nat.id n_samples) by lia.
  destruct (predict_loop t_exp t_tanh model seq_time seq_events hmax
              (Z.to_nat n_samples) H K m
              (PredState (zeros (hidden_size model)) (zeros (hidden_size model))
                 (zeros (hidden_size model)) [] [] [] [])
              Hcell HK ltac:(lia) Hlen ltac:(lia))
    as (st & -> & Htg & Hyg & Htp & Hyp).
  cbn [mbind res_bind]. simpl in Htg, Hyg, Htp, Hyp.
  exists (times_gt st), (times_pred st), (types_gt st), (types_pred st).
  split; [done|].
  assert (Hm : (m - 1)%nat = Z.to_nat (seq_length - 2)) by (unfold m, seq_length; lia).
  assert (Hdt : times_gt st = drop 3 seq_time).
  { rewrite Htg. apply take_ge. rewrite length_drop. lia. }
  assert (Hdy : types_gt st = drop 3 seq_events).
  { rewrite Hyg. apply take_ge. rewrite length_drop. lia. }
  assert (Hl1 : length (times_gt st) = Z.to_nat (seq_length - 2)).
  { rewrite Hdt, length_drop. unfold seq_length. lia. }
  assert (Hl2 : length (types_gt st) = Z.to_nat (seq_length - 2)).
  { rewrite Hdy, length_drop, Hlen. unfold seq_length. lia. }
  split; [done|]. split; [done|]. split; [done|]. split; [lia|].
  split; [done|]. split; [lia|].
  intros Hshort. repeat split; apply length_zero_iff_nil; lia.
Qed.

Lemma predict_event_records_witness :
  let seq_time := [zero; rat 1 1; rat 2 1; rat 1 2; rat 1 1] in
  let seq_events := [1; 0; 0; 0; 0]%Z in
  let seq_length := (Z.of_nat (length seq_time) - 1)%Z in
  ∃ tg tp yg yp,
    predict_event exp_rational tanh_rational clock_model seq_time seq_events
      (Q2Qc 40) 4 = Ok (tg, tp, yg, yp)
    ∧ tg = drop 3 seq_time ∧ yg = drop 3 seq_events
    ∧ length tg = Z.to_nat (seq_length - 2)
    ∧ length tp = Z.to_nat (seq_length - 2)
    ∧ length yg = Z.to_nat (seq_length - 2)
    ∧ length yp = Z.to_nat (seq_length - 2)
    ∧ ((seq_length ≤ 2)%Z → tg = [] ∧ tp = [] ∧ yg = [] ∧ yp = []).
Proof.
  apply (predict_event_records exp_rational tanh_rational clock_model
           [zero; rat 1 1; rat 2 1; rat 1 2; rat 1 1] [1; 0; 0; 0; 0]%Z
           (Q2Qc 40) 4 1 1).
  - intros e h c c_target. simpl. done.
  - split; [lia|]. intros h. reflexivity.
  - lia.
  - reflexivity.
Defined.


(** * Further properties of the code *)

(** ** When the samplers return *)

Lemma rand_bind_raise {A B} (m : Rand A) (f : A → Rand B) g e :
  m g = Raise e → (m ≫= f) g = Raise e.
Proof. intros H. unfold mbind, rand_bind. by rewrite H. Qed.

(** A loop whose body returns on the elements that satisfy [P] and raises
    [e] on the others returns exactly when all elements satisfy [P]. *)
Lemma rand_for_each_cases {A B} (P : A → Prop) (e : exn)
    (f : A → Rand B) l g :
  (∀ x g1, (P x ∧ ∃ y g2, f x g1 = Ok (y, g2)) ∨ (¬ P x ∧ f x g1 = Raise e)) →
  (Forall P l ∧ ∃ ys g', rand_for_each f l g = Ok (ys, g')
                         ∧ length ys = length l)
  ∨ (¬ Forall P l ∧ rand_for_each f l g = Raise e).
Proof.
  intros Hf. revert g; induction l as [|x l IH]; intros g; simpl.
  - left. split; [constructor|]. by exists [], g.
  - destruct (Hf x g) as [(Hx & y & g1 & Hy)|(Hx & Hy)].
    + destruct (IH g1) as [(Hl & ys & g2 & Hys & Hlen)|(Hl & Hys)].
      * left. split; [by constructor|]. exists (y :: ys), g2.
        rewrite (rand_bind_run _ _ _ _ _ Hy), (rand_bind_run _ _ _ _ _ Hys).
        split; [done|]. simpl. by rewrite Hlen.
      * right. split; [by inversion 1|].
        by rewrite (rand_bind_run _ _ _ _ _ Hy), (rand_bind_raise _ _ _ _ Hys).
    + right. split; [by inversion 1|]. by apply rand_bind_raise.
Qed.

Lemma uniform_cases (t : vec) tot g :
  (nonneg tot ∧ ∃ u g', uniform_ t zero tot g = Ok (u, g'))
  ∨ (¬ nonneg tot ∧ uniform_ t zero tot g = Raise RuntimeError).
Proof.
  destruct tot as [b| | |]; try (right; split; [simpl; tauto|done]).
  destruct (decide (0 ≤ b)) as [Hb|Hb].
  - left. split; [done|].
    destruct (uniform_run t b g Hb) as (g' & Hrun & _). eauto.
  - right. split; [done|]. unfold uniform_, zero.
    by destruct (decide (0 ≤ b)).
Qed.

Lemma sim_inter_time_of_cases n tot g :
  (nonneg tot ∧ ∃ row g', sim_inter_time_of n tot g = Ok (row, g'))
  ∨ (¬ nonneg tot ∧ sim_inter_time_of n tot g = Raise RuntimeError).
Proof.
  unfold sim_inter_time_of.
  destruct (uniform_cases (zeros n) tot g) as [(Ht & u & g1 & Hu)|(Ht & Hu)].
  - left. split; [done|]. rewrite (rand_bind_run _ _ _ _ _ Hu).
    unfold np_random_shuffle.
    destruct (shuffle_down_run
                (length (inter_times n (merge_sort s_le u)) - 1)
                (inter_times n (merge_sort s_le u)) g1) as (y & g2 & Hy & _).
    eauto.
  - right. split; [done|]. by apply rand_bind_raise.
Qed.

(** X1: on a batch of inter-arrival times that are not negative,
    [create_unifrom_d] returns exactly when the batch has a sequence and
    the total of every row is inside the float32 range; otherwise (an empty
    batch, or a row total that overflows to [+inf]) it raises a
    RuntimeError. *)
Theorem create_unifrom_d_returns_iff (event_times : list vec) g :
  Forall (Forall nonneg) event_times →
  match create_unifrom_d event_times g with
  | Ok _ =>
      event_times ≠ [] ∧ Forall (λ times, in_f32 (s_sum times)) event_times
  | Raise e =>
      e = RuntimeError
      ∧ ¬ (event_times ≠ []
           ∧ Forall (λ times, in_f32 (s_sum times)) event_times)
  end.
Proof.
  intros Hpos.
  assert (Hiff : Forall nonneg (f32_sum <$> event_times)
                 ↔ Forall (λ times, in_f32 (s_sum times)) event_times).
  { rewrite Forall_fmap. clear g.
    induction Hpos as [|times l Htimes _ IH]; [done|].
    rewrite !Forall_cons. unfold compose at 1.
    by rewrite (f32_sum_nonneg_iff times Htimes), IH. }
  unfold create_unifrom_d.
  destruct (shape2 event_times) as [bs n].
  destruct (rand_for_each_cases nonneg RuntimeError (sim_inter_time_of n)
              (f32_sum <$> event_times) g (sim_inter_time_of_cases n))
    as [(Hall & rows & g' & Hrun & Hlen)|(Hall & Hrun)].
  - rewrite (rand_bind_run _ _ _ _ _ Hrun). apply Hiff in Hall.
    rewrite length_fmap in Hlen.
    destruct rows as [|row rows]; simpl.
    + split; [done|]. intros [Hne _]. by destruct event_times.
    + split; [|done]. by destruct event_times.
  - rewrite (rand_bind_raise _ _ _ _ Hrun). split; [done|].
    rewrite Hiff in Hall. tauto.
Qed.

Lemma create_unifrom_d_returns_iff_witness :
  match create_unifrom_d
          [[rat 1 1; rat 2 1]; [rat (3 * 10 ^ 38) 1; rat (3 * 10 ^ 38) 1]]
          spread_draws with
  | Ok _ =>
      [[rat 1 1; rat 2 1]; [rat (3 * 10 ^ 38) 1; rat (3 * 10 ^ 38) 1]] ≠ []
      ∧ Forall (λ times, in_f32 (s_sum times))
          [[rat 1 1; rat 2 1]; [rat (3 * 10 ^ 38) 1; rat (3 * 10 ^ 38) 1]]
  | Raise e =>
      e = RuntimeError
      ∧ ¬ ([[rat 1 1; rat 2 1]; [rat (3 * 10 ^ 38) 1; rat (3 * 10 ^ 38) 1]]
           ≠ []
           ∧ Forall (λ times, in_f32 (s_sum times))
               [[rat 1 1; rat 2 1];
                [rat (3 * 10 ^ 38) 1; rat (3 * 10 ^ 38) 1]])
  end.
Proof.
  apply (create_unifrom_d_returns_iff
           [[rat 1 1; rat 2 1]; [rat (3 * 10 ^ 38) 1; rat (3 * 10 ^ 38) 1]]
           spread_draws).
  repeat constructor; compute_done.
Defined.

(** X2: [create_unif_d] returns exactly when there is a first total time
    and it is finite and not negative; the other total times are never
    looked at.  Otherwise it raises a RuntimeError. *)
Theorem create_unif_d_returns_iff batch_length (total_time_seqs : vec) g :
  match create_unif_d batch_length total_time_seqs g with
  | Ok _ => ∃ first rest, total_time_seqs = first :: rest ∧ nonneg first
  | Raise e =>
      e = RuntimeError
      ∧ ¬ ∃ first rest, total_time_seqs = first :: rest ∧ nonneg first
  end.
Proof.
  unfold create_unif_d. destruct total_time_seqs as [|first rest].
  - simpl. split; [done|]. by intros (? & ? & ? & _).
  - destruct (rand_for_each_cases (λ _, nonneg first) RuntimeError
                (λ _, t ← torch_rand batch_length;
                      first' ← lift (getitem (first :: rest) 0);
                      uniform_ t zero first') (first :: rest) g)
      as [(Hall & rows & g' & Hrun & Hlen)|(Hall & Hrun)].
    + intros _ g1.
      destruct (torch_rand_run batch_length g1) as (t & g2 & Ht & _).
      rewrite (rand_bind_run _ _ _ _ _ Ht).
      unfold mbind at 1, rand_bind. rewrite getitem_head. simpl.
      apply uniform_cases.
    + rewrite (rand_bind_run _ _ _ _ _ Hrun).
      destruct rows as [|row rows]; [done|]. simpl.
      exists first, rest. split; [done|]. by inversion Hall.
    + rewrite (rand_bind_raise _ _ _ _ Hrun). split; [done|].
      intros (f & r & [= <- <-] & Hf). apply Hall. by apply Forall_forall.
Qed.

(** ** What the shuffle does to a tensor *)

(** X3: [np.random.shuffle] on a tensor returns a tensor of the same
    length in which position 0 keeps its entry and every position
    [k >= 1] holds the entry that the input had at the position drawn for
    it, a position of [0 .. k]; it uses one numpy draw for each position
    from 1 on and no torch draw. *)
Theorem np_random_shuffle_effect (x : vec) g :
  ∃ y g', np_random_shuffle x g = Ok (y, g')
    ∧ length y = length x
    ∧ y !! 0%nat = x !! 0%nat
    ∧ (∀ k, (1 ≤ k < length x)%nat →
         ∃ j, (j ≤ k)%nat ∧ y !! k = x !! j
              ∧ j = (numpy_draws g (numpy_pos g + (length x - 1 - k))
                       `mod` S k)%nat)
    ∧ torch_draws g' = torch_draws g ∧ torch_pos g' = torch_pos g
    ∧ numpy_pos g' = (numpy_pos g + (length x - 1))%nat.
Proof.
  unfold np_random_shuffle.
  destruct (shuffle_down_lookup (length x - 1) x g)
    as (y & g' & Hrun & Hlen & H0 & _ & Hbelow & Ht & Htp & _ & Hnp); [lia|].
  exists y, g'. repeat split; try done.
  intros k Hk. eexists. split; [|split; [apply Hbelow; lia|done]].
  pose proof (Nat.mod_upper_bound
                (numpy_draws g (numpy_pos g + (length x - 1 - k))) (S k)). lia.
Qed.

(** ** The rows of [create_unifrom_d] *)

(** X4: on a batch of inter-arrival times that are not negative, with at
    least one sequence and every row total inside the float32 range,
    [create_unifrom_d] returns, and every value returned for a sequence is
    a duration between 0 and the total time of that sequence. *)
Theorem create_unifrom_d_bounded (event_times : list vec) n g :
  event_times ≠ [] → rect n event_times →
  Forall (Forall nonneg) event_times →
  Forall (λ times, in_f32 (s_sum times)) event_times →
  unit_draws g →
  ∃ out g', create_unifrom_d event_times g = Ok (out, g')
    ∧ Forall2 (λ times row,
         ∃ T, s_sum times = Fin T
              ∧ Forall (λ x, ∃ a, x = Fin a ∧ 0 ≤ a ∧ a ≤ T) row)
        event_times out.
Proof.
  intros Hne Hrect Hpos Hin Hg.
  destruct (create_unifrom_d_run event_times n g Hne Hrect Hpos Hin)
    as (out & Hrun & _).
  destruct (create_unifrom_d_rows_facts event_times n g out _
              Hne Hrect Hpos Hin Hrun) as (_ & _ & _ & _ & Hbd).
  eexists out, _. split; [exact Hrun|]. by apply Hbd.
Qed.

Lemma create_unifrom_d_bounded_witness :
  ∃ out g', create_unifrom_d two_by_three spread_draws = Ok (out, g')
    ∧ Forall2 (λ times row,
         ∃ T, s_sum times = Fin T
              ∧ Forall (λ x, ∃ a, x = Fin a ∧ 0 ≤ a ∧ a ≤ T) row)
        two_by_three out.
Proof.
  apply (create_unifrom_d_bounded two_by_three 3 spread_draws).
  - done.
  - repeat constructor.
  - repeat constructor; compute_done.
  - repeat constructor; compute_done.
  - exact spread_draws_unit.
Defined.

(** X5: on such a batch with at least one column, whatever the draws are,
    every returned row starts with 0: the gaps are built with a 0 in front,
    and the shuffle never writes to position 0. *)
Theorem create_unifrom_d_rows_start_with_zero (event_times : list vec) n g :
  event_times ≠ [] → rect n event_times → (0 < n)%nat →
  Forall (Forall nonneg) event_times →
  Forall (λ times, in_f32 (s_sum times)) event_times →
  ∃ out g', create_unifrom_d event_times g = Ok (out, g')
    ∧ Forall (λ row, row !! 0%nat = Some zero) out.
Proof.
  intros Hne Hrect Hn Hpos Hin.
  destruct (create_unifrom_d_run event_times n g Hne Hrect Hpos Hin)
    as (out & Hrun & _).
  destruct (create_unifrom_d_rows_facts event_times n g out _
              Hne Hrect Hpos Hin Hrun) as (_ & _ & _ & H0 & _).
  eexists out, _. split; [exact Hrun|]. by apply H0.
Qed.

Lemma create_unifrom_d_rows_start_with_zero_witness :
  ∃ out g', create_unifrom_d two_by_three spread_draws = Ok (out, g')
    ∧ Forall (λ row, row !! 0%nat = Some zero) out.
Proof.
  apply (create_unifrom_d_rows_start_with_zero two_by_three 3 spread_draws).
  - done.
  - repeat constructor.
  - lia.
  - repeat constructor; compute_done.
  - repeat constructor; compute_done.
Defined.

(** ** The sampler of the loss, continued *)

(** X6: the total times after the first do not reach the samples of
    [create_unif_d]: two batches with the same first total time and the
    same number of sequences give the same result, on the same draws,
    whatever the other total times are (the upper bound of every sequence
    is [total_time_seqs[0]]). *)
Theorem create_unif_d_only_first_total batch_length t0 (ts ts' : vec) g :
  length ts = length ts' →
  create_unif_d batch_length (t0 :: ts) g
  = create_unif_d batch_length (t0 :: ts') g.
Proof. apply create_unif_d_shared_horizon. Qed.

Lemma create_unif_d_only_first_total_witness :
  create_unif_d 2 (rat 1 1 :: [rat 5 1; rat 2 1]) half_draws
  = create_unif_d 2 (rat 1 1 :: [NaN; rat (-3) 1]) half_draws.
Proof.
  apply (create_unif_d_only_first_total 2 (rat 1 1) [rat 5 1; rat 2 1]
           [NaN; rat (-3) 1] half_draws).
  reflexivity.
Defined.

(** X7: for a first total time that is finite and not negative,
    [create_unif_d] returns a tensor with one row for each of the
    [batch_length] positions and one column for each sequence, and every
    entry is a duration between 0 and the first total time. *)
Theorem create_unif_d_layout batch_length t0 (ts : vec) g :
  0 ≤ t0 → unit_draws g →
  ∃ out g', create_unif_d batch_length (Fin t0 :: ts) g = Ok (out, g')
    ∧ length out = batch_length
    ∧ Forall (λ r, length r = S (length ts)) out
    ∧ Forall (Forall (λ x, ∃ a, x = Fin a ∧ 0 ≤ a ∧ a ≤ t0)) out.
Proof. apply create_unif_d_run. Qed.

Lemma create_unif_d_layout_witness :
  ∃ out g', create_unif_d 3 (Fin 1 :: [rat 5 1]) half_draws = Ok (out, g')
    ∧ length out = 3%nat
    ∧ Forall (λ r, length r = S (length [rat 5 1])) out
    ∧ Forall (Forall (λ x, ∃ a, x = Fin a ∧ 0 ≤ a ∧ a ≤ 1)) out.
Proof.
  apply (create_unif_d_layout 3 1 [rat 5 1] half_draws).
  - compute_done.
  - intros k. split; compute_done.
Defined.

(** ** The terms of the loss *)

Lemma for_each_lookup {A B} (f : A → res B) l ys i x :
  for_each f l = Ok ys → l !! i = Some x →
  ∃ y, ys !! i = Some y ∧ f x = Ok y.
Proof.
  revert ys i; induction l as [|z l IH]; intros ys i; [done|].
  rewrite for_each_cons. destruct (f z) as [y|] eqn:Hz; [|done].
  cbn [mbind res_bind]. destruct (for_each f l) as [ys'|]; [|done].
  cbn [mbind res_bind]. intros [= <-]. destruct i as [|i]; simpl.
  - intros [= <-]. by exists y.
  - by apply IH.
Qed.

Lemma for_each_raise_at {A B} (f : A → res B) l1 x l2 e :
  Forall (λ z, ∃ y, f z = Ok y) l1 → f x = Raise e →
  for_each f (l1 ++ x :: l2) = Raise e.
Proof.
  intros Hl1 Hx. induction Hl1 as [|z l1 (y & Hz) _ IH]; simpl.
  - by rewrite Hx.
  - by rewrite Hz, IH.
Qed.

Lemma getitem_out_of_range {A} (l : list A) (i : Z) :
  (Z.of_nat (length l) ≤ i)%Z → getitem l i = Raise IndexError.
Proof.
  intros Hi. unfold getitem.
  destruct (decide (i < 0)%Z); [lia|].
  by destruct (decide (0 ≤ i < Z.of_nat (length l))%Z); [lia|].
Qed.

Lemma enumerate_lookup {A} (l : list A) i x :
  l !! i = Some x → enumerate l !! i = Some (i, x).
Proof.
  intros Hi. unfold enumerate. rewrite lookup_zip_with, Hi.
  rewrite lookup_seq_lt by (by eapply lookup_lt_Some). done.
Qed.

Lemma foldl_add_nan l : foldl s_add NaN l = NaN.
Proof. induction l as [|x l IH]; simpl; [done|]. by destruct x. Qed.

Lemma s_sum_nan (l : vec) : NaN ∈ l → s_sum l = NaN.
Proof.
  unfold s_sum. generalize zero. induction l as [|x l IH]; intros acc Hin.
  - by apply elem_of_nil in Hin.
  - apply elem_of_cons in Hin as [<-|Hin]; simpl.
    + replace (s_add acc NaN) with NaN by (by destruct acc).
      apply foldl_add_nan.
    + by apply IH.
Qed.

(** The Monte-Carlo term of a sequence of length 0 and total time 0 is NaN
    whenever it is computed at all. *)
Lemma integral_term_empty_nan (sim_intensity : list (list vec)) idx v :
  integral_term sim_intensity idx zero 0 = Ok v → v = NaN.
Proof.
  unfold integral_term. destruct (select1 sim_intensity idx); [|done].
  by intros [= <-].
Qed.

Lemma integral_terms_lookup model batch_length (seqs_length : list nat)
    (total_time_seqs : vec) output g terms g' idx T L :
  integral_terms model batch_length seqs_length total_time_seqs output g
  = Ok (terms, g') →
  total_time_seqs !! idx = Some T → seqs_length !! idx = Some L →
  ∃ sim_intensity v,
    terms !! idx = Some v ∧ integral_term sim_intensity idx T L = Ok v.
Proof.
  unfold integral_terms, mbind, rand_bind, lift. intros Hrun HT HL.
  destruct (create_unif_d _ _ g) as [[sim g1]|]; [|done].
  destruct (simulated_intensity model output sim) as [si|]; [|done].
  destruct (for_each _ _) as [ys|] eqn:Hys; [|done].
  injection Hrun as <- <-.
  destruct (for_each_lookup _ _ _ idx (idx, (T, L)) Hys) as (v & Hv & Hterm).
  { apply enumerate_lookup. by rewrite lookup_zip_with, HT, HL. }
  by exists si, v.
Qed.

(** X8: one sequence of length 0 and total time 0 spoils the whole batch:
    whenever [forward] returns a loss for a batch that contains such a
    sequence, that loss is NaN. *)
Theorem forward_nan_of_empty_sequence t_log model (event_seqs : list (list Z))
    (time_seqs : list vec) (seqs_length : list nat) (total_time_seqs : vec)
    output g loss g' idx :
  forward t_log model event_seqs time_seqs seqs_length total_time_seqs output g
  = Ok (loss, g') →
  seqs_length !! idx = Some 0%nat → total_time_seqs !! idx = Some zero →
  loss = NaN.
Proof.
  unfold forward. destruct (shape2 event_seqs) as [bs bl].
  unfold mbind at 1, rand_bind, lift. intros Hrun HL HT.
  destruct (event_terms t_log model event_seqs seqs_length output) as [ev|];
    [|done].
  unfold mbind, rand_bind in Hrun.
  destruct (integral_terms _ _ _ _ _ g) as [[terms g1]|] eqn:Hterms; [|done].
  injection Hrun as <- <-.
  destruct (integral_terms_lookup _ _ _ _ _ _ _ _ idx zero 0%nat Hterms HT HL)
    as (si & v & Hv & Hint).
  apply integral_term_empty_nan in Hint as ->.
  rewrite (s_sum_nan terms) by (by eapply list_elem_of_lookup_2).
  unfold s_sub. by destruct (s_sum ev).
Qed.

Lemma forward_nan_of_empty_sequence_witness :
  ∃ loss g',
    forward log_rational clock_model [[1; 0]; [1; 0]]%Z
      [[zero; rat 1 1]; [zero; zero]] [1; 0]%nat [rat 1 1; zero]
      (constant_states 2 2 (rat 1 1)) half_draws = Ok (loss, g')
    ∧ loss = NaN.
Proof.
  destruct (forward log_rational clock_model [[1; 0]; [1; 0]]%Z
              [[zero; rat 1 1]; [zero; zero]] [1; 0]%nat [rat 1 1; zero]
              (constant_states 2 2 (rat 1 1)) half_draws)
    as [[loss g']|e] eqn:Hrun.
  - exists loss, g'. split; [done|].
    apply (forward_nan_of_empty_sequence log_rational clock_model
             [[1; 0]; [1; 0]]%Z [[zero; rat 1 1]; [zero; zero]] [1; 0]%nat
             [rat 1 1; zero] (constant_states 2 2 (rat 1 1)) half_draws
             loss g' 1%nat Hrun); reflexivity.
  - exfalso. vm_compute in Hrun. discriminate Hrun.
Defined.

Lemma slice_length {A} a b (l : list A) :
  length (slice a b l) = ((b - a) `min` (length l - a))%nat.
Proof. unfold slice. by rewrite length_take, length_drop. Qed.

Lemma index_pairs_mismatch (arr : list nat) (pos : list Z) :
  length arr ≠ length pos → length arr ≠ 1%nat → length pos ≠ 1%nat →
  index_pairs arr pos = Raise IndexError.
Proof.
  intros Hne Ha Hp. unfold index_pairs.
  destruct (decide (length arr = length pos)); [done|].
  destruct arr as [|a [|a' arr]], pos as [|p [|p' pos]]; simpl in *; done.
Qed.

(** X9: a declared length that exceeds the number of events in the buffer
    is refused: when the sequence has [seq_len >= 2] but fewer than
    [seq_len] events after the start marker, and not exactly one, the
    event term raises an IndexError (the two index vectors do not
    broadcast). *)
Theorem event_term_length_mismatch (log_intensity : list (list vec)) idx
    (event_seq : list Z) seq_len c :
  select1 log_intensity idx = Ok c →
  (length event_seq - 1 < seq_len)%nat → seq_len ≠ 1%nat →
  length event_seq ≠ 2%nat →
  event_term log_intensity idx event_seq seq_len = Raise IndexError.
Proof.
  intros Hc Hlt H1 H2. unfold event_term, at_events. rewrite Hc.
  cbn [mbind res_bind].
  rewrite index_pairs_mismatch; [done| | |].
  - rewrite length_seq, slice_length. lia.
  - by rewrite length_seq.
  - rewrite slice_length. lia.
Qed.

Lemma event_term_length_mismatch_witness :
  event_term [[[zero]]; [[zero]]; [[zero]]] 0 [1; 0; 0]%Z 3 = Raise IndexError.
Proof.
  apply (event_term_length_mismatch [[[zero]]; [[zero]]; [[zero]]] 0
           [1; 0; 0]%Z 3 [[zero]; [zero]; [zero]]).
  - reflexivity.
  - simpl. lia.
  - lia.
  - simpl. lia.
Defined.

Lemma for_each_fmap {A B C} (f : B → res C) (h : A → B) (l : list A) :
  for_each f (h <$> l) = for_each (λ a, f (h a)) l.
Proof.
  induction l as [|a l IH]; [done|].
  change (h <$> a :: l) with (h a :: (h <$> l)).
  rewrite !for_each_cons. by rewrite IH.
Qed.

(** X10: a buffer with exactly one event after the start marker is not
    refused, whatever the declared length: for [seq_len >= 2] the single
    event type is paired with every position (the index vectors
    broadcast), so the event term is the sum of the log-intensities of
    that one type over the first [seq_len] positions. *)
Theorem event_term_single_event (log_intensity : list (list vec)) idx
    (start p : Z) seq_len c :
  select1 log_intensity idx = Ok c → (2 ≤ seq_len)%nat →
  event_term log_intensity idx [start; p] seq_len
  = s_sum <$> for_each (λ a : nat, row ← getitem c (Z.of_nat a);
                          getitem row p) (seq 0 seq_len).
Proof.
  intros Hc Hlen. unfold event_term, at_events. rewrite Hc.
  cbn [mbind res_bind].
  assert (slice 1 (seq_len + 1) [start; p] = [p]) as ->.
  { unfold slice. replace (seq_len + 1 - 1)%nat with seq_len by lia.
    destruct seq_len as [|[|n]]; [lia|lia|done]. }
  assert (index_pairs (seq 0 seq_len) [p]
          = Ok ((λ a, (a, p)) <$> seq 0 seq_len)) as ->.
  { unfold index_pairs.
    destruct (decide (length (seq 0 seq_len) = length [p])) as [He|_].
    - rewrite length_seq in He. simpl in He. lia.
    - destruct seq_len as [|[|n]]; [lia|lia|done]. }
  cbn [mbind res_bind]. rewrite for_each_fmap.
  by destruct (for_each _ (seq 0 seq_len)).
Qed.

Lemma event_term_single_event_witness :
  event_term [[[rat 1 1; rat 2 1]]; [[rat 3 1; rat 4 1]]; [[rat 5 1; rat 6 1]]]
    0 [2; 1]%Z 3
  = s_sum <$> for_each (λ a : nat,
        row ← getitem [[rat 1 1; rat 2 1]; [rat 3 1; rat 4 1];
                       [rat 5 1; rat 6 1]] (Z.of_nat a);
        getitem row 1%Z) (seq 0 3).
Proof.
  apply (event_term_single_event
           [[[rat 1 1; rat 2 1]]; [[rat 3 1; rat 4 1]]; [[rat 5 1; rat 6 1]]]
           0 2%Z 1%Z 3
           [[rat 1 1; rat 2 1]; [rat 3 1; rat 4 1]; [rat 5 1; rat 6 1]]).
  - reflexivity.
  - lia.
Defined.

(** X11: a declared length that exceeds the number of simulated positions
    is refused: the integral term raises an IndexError. *)
Theorem integral_term_length_out_of_range (sim_intensity : list (list vec))
    idx total_time seq_len c :
  select1 sim_intensity idx = Ok c →
  (length sim_intensity < seq_len)%nat →
  integral_term sim_intensity idx total_time seq_len = Raise IndexError.
Proof.
  intros Hc Hlt. unfold integral_term. rewrite Hc. cbn [mbind res_bind].
  pose proof (for_each_length _ _ _ Hc) as Hlen.
  replace seq_len with (length c + S (seq_len - length c - 1))%nat by lia.
  rewrite seq_app. cbn [seq].
  rewrite (for_each_raise_at _ _ _ _ IndexError); [done| |].
  - apply Forall_forall. intros a Ha. apply elem_of_seq in Ha.
    destruct (lookup_lt_is_Some_2 c a) as (row & Hrow); [lia|].
    exists row. by apply getitem_nat.
  - apply getitem_out_of_range. lia.
Qed.

Lemma integral_term_length_out_of_range_witness :
  integral_term [[[rat 1 1]]] 0 (rat 1 1) 2 = Raise IndexError.
Proof.
  apply (integral_term_length_out_of_range [[[rat 1 1]]] 0 (rat 1 1) 2
           [[rat 1 1]]).
  - reflexivity.
  - simpl. lia.
Defined.

Lemma foldl_add_const (acc c : Qc) {A} (l : list A) :
  foldl s_add (Fin acc) ((λ _, Fin c) <$> l)
  = Fin (acc + of_nat (length l) * c).
Proof.
  revert acc; induction l as [|x l IH]; intros acc.
  - simpl. f_equal. unfold of_nat. change (Z.of_nat 0) with 0%Z.
    rewrite Z2Qc_inj_0. ring.
  - cbn [fmap list_fmap foldl s_add length]. rewrite IH. f_equal.
    unfold of_nat. rewrite Nat2Z.inj_succ, <- Z.add_1_r, Z2Qc_inj_add,
      Z2Qc_inj_1. ring.
Qed.

(** X12: for an intensity that does not change, the Monte-Carlo term is
    exact.  If sequence [idx] has the same intensity vector, of finite sum
    [total], at every simulated position, then the integral term of that
    sequence with a length between 1 and the number of positions is
    [T * total]. *)
Theorem integral_term_constant_intensity (sim_intensity : list (list vec))
    idx (T total : Qc) (v : vec) seq_len :
  (0 < seq_len)%nat → (seq_len ≤ length sim_intensity)%nat →
  Forall (λ row, row !! idx = Some v) sim_intensity →
  s_sum v = Fin total →
  integral_term sim_intensity idx (Fin T) seq_len = Ok (Fin (T * total)).
Proof.
  intros Hpos Hle Hrows Hv. unfold integral_term, select1.
  rewrite (for_each_ok _ (λ _, v)).
  2:{ intros row Hrow. rewrite Forall_forall in Hrows.
      by apply getitem_nat, Hrows. }
  cbn [mbind res_bind].
  rewrite (for_each_ok _ (λ _, v)).
  2:{ intros a Ha. apply elem_of_seq in Ha. apply getitem_nat.
      rewrite list_lookup_fmap.
      destruct (lookup_lt_is_Some_2 sim_intensity a) as (row & ->); [lia|].
      done. }
  cbn [mbind res_bind]. unfold mret, res_ret. f_equal.
  rewrite <- list_fmap_compose.
  rewrite (list_fmap_ext _ (λ _, Fin total) (seq 0 seq_len))
    by (intros; exact Hv).
  unfold s_sum, zero. rewrite foldl_add_const, length_seq.
  unfold s_div. destruct (decide (of_nat seq_len = 0)) as [H0|H0].
  { by apply of_nat_nonzero in H0. }
  cbn [s_mul]. f_equal. field. exact H0.
Qed.

Lemma integral_term_constant_intensity_witness :
  integral_term [[[rat 1 2; rat 1 4]]; [[rat 1 2; rat 1 4]]] 0
    (Fin (Q2Qc (7 # 2))) 2
  = Ok (Fin (Q2Qc (7 # 2) * Q2Qc (3 # 4))).
Proof.
  apply (integral_term_constant_intensity
           [[[rat 1 2; rat 1 4]]; [[rat 1 2; rat 1 4]]] 0
           (Q2Qc (7 # 2)) (Q2Qc (3 # 4)) [rat 1 2; rat 1 4] 2).
  - lia.
  - simpl. lia.
  - repeat constructor.
  - compute_done.
Defined.

(** ** When the padder returns *)

Lemma getitem_nil {A} (i : Z) : getitem (@nil A) i = Raise IndexError.
Proof.
  unfold getitem. simpl.
  destruct (decide (i < 0)%Z); by destruct (decide _); [lia|].
Qed.

Lemma select1_first_cases {A} (t : list (list A)) :
  (Forall (λ r, r ≠ []) t ∧ ∃ hs, select1 t 0 = Ok hs)
  ∨ (Exists (λ r, r = []) t ∧ select1 t 0 = Raise IndexError).
Proof.
  unfold select1. induction t as [|r t IH].
  - left. split; [constructor|]. by exists [].
  - rewrite for_each_cons. destruct r as [|x r].
    + right. split; [by left|]. by rewrite getitem_nil.
    + rewrite getitem_head. cbn [mbind res_bind].
      destruct IH as [(Hall & hs & ->)|(Hex & ->)].
      * left. split; [by constructor|]. by eexists.
      * right. split; [by right|done].
Qed.

Lemma BeginningOfStream_cases (seq_events : list (list Z))
    (seq_time : list vec) (seq_tot_time : vec) (seqs_len : list nat)
    type_size :
  match BeginningOfStream (seq_events, seq_time, seq_tot_time, seqs_len)
          type_size with
  | Ok _ => Forall (λ r, r ≠ []) seq_events ∧ Forall (λ r, r ≠ []) seq_time
  | Raise e =>
      e = IndexError
      ∧ (Exists (λ r, r = []) seq_events ∨ Exists (λ r, r = []) seq_time)
  end.
Proof.
  unfold BeginningOfStream.
  destruct (select1_first_cases seq_events) as [(He & es & ->)|(He & ->)].
  - cbn [mbind res_bind].
    destruct (select1_first_cases seq_time) as [(Ht & ts & ->)|(Ht & ->)].
    + by split.
    + split; [done|]. by right.
  - split; [done|]. by left.
Qed.

Lemma rect_nonempty_rows {A} (w : nat) (t : list (list A)) :
  t ≠ [] → rect w t → Forall (λ r, r ≠ []) t → (0 < w)%nat.
Proof.
  intros Hne Hw Hrows. destruct t as [|r t]; [done|].
  apply Forall_cons_1 in Hw as [Hr _]. apply Forall_cons_1 in Hrows as [Hr' _].
  destruct r; [done|]. simpl in Hr. lia.
Qed.

Lemma rect_empty_row {A} (w : nat) (t : list (list A)) :
  rect w t → Exists (λ r, r = []) t → w = 0%nat.
Proof.
  intros Hw (r & Hr & ->)%Exists_exists.
  unfold rect in Hw. rewrite Forall_forall in Hw. by rewrite <- (Hw _ Hr).
Qed.

(** X13: on a batch that holds a sequence, the padder returns exactly when
    both buffers have a column: for an events buffer of [n] columns and a
    times buffer of [m] columns it returns when [n] and [m] are positive,
    and raises an IndexError when one of them is 0 (there is no first
    column to take the shape of the padding from). *)
Theorem BeginningOfStream_returns_iff (seq_events : list (list Z))
    (seq_time : list vec) (seq_tot_time : vec) (seqs_len : list nat)
    type_size n m :
  seq_events ≠ [] → seq_time ≠ [] → rect n seq_events → rect m seq_time →
  match BeginningOfStream (seq_events, seq_time, seq_tot_time, seqs_len)
          type_size with
  | Ok _ => (0 < n)%nat ∧ (0 < m)%nat
  | Raise e => e = IndexError ∧ (n = 0%nat ∨ m = 0%nat)
  end.
Proof.
  intros Hev Htm Hn Hm.
  pose proof (BeginningOfStream_cases seq_events seq_time seq_tot_time
                seqs_len type_size) as Hcases.
  destruct (BeginningOfStream _ _) as [out|e].
  - destruct Hcases as [He Ht]. split.
    + exact (rect_nonempty_rows n seq_events Hev Hn He).
    + exact (rect_nonempty_rows m seq_time Htm Hm Ht).
  - destruct Hcases as [-> [He|Ht]]; (split; [done|]).
    + left. exact (rect_empty_row n seq_events Hn He).
    + right. exact (rect_empty_row m seq_time Hm Ht).
Qed.

Lemma BeginningOfStream_returns_iff_witness :
  match BeginningOfStream ([[]; []], [[rat 1 1]; [rat 2 1]], [zero; zero],
                           [0; 0]%nat) 3 with
  | Ok _ => (0 < 0)%nat ∧ (0 < 1)%nat
  | Raise e => e = IndexError ∧ (0 = 0 ∨ 1 = 0)%nat
  end.
Proof.
  apply (BeginningOfStream_returns_iff [[]; []] [[rat 1 1]; [rat 2 1]]
           [zero; zero] [0; 0]%nat 3 0 1).
  - done.
  - done.
  - by repeat constructor.
  - by repeat constructor.
Defined.

(** ** The loop of the predictor, at its edges *)

(** X14: a sequence of at most two time entries never enters the loop:
    whatever the model, the event types, the horizon and the sample count
    (0 included), the four returned lists are empty. *)
Theorem predict_event_short t_exp t_tanh model (seq_time : vec)
    (seq_events : list Z) hmax n_samples :
  (length seq_time ≤ 2)%nat →
  predict_event t_exp t_tanh model seq_time seq_events hmax n_samples
  = Ok ([], [], [], []).
Proof.
  intros Hlen. unfold predict_event, py_range.
  replace (Z.to_nat (Z.of_nat (length seq_time) - 1 - 1)) with 0%nat by lia.
  done.
Qed.

Lemma predict_event_short_witness :
  predict_event exp_rational tanh_rational clock_model [zero; rat 1 1] [] 
    (Q2Qc 40) 0
  = Ok ([], [], [], []).
Proof.
  apply (predict_event_short exp_rational tanh_rational clock_model
           [zero; rat 1 1] [] (Q2Qc 40) 0).
  simpl. lia.
Defined.

Lemma for_fold_raise_at {S A} (f : S → A → res S) l1 x l2 e s :
  (∀ s1 z, z ∈ l1 → ∃ s2, f s1 z = Ok s2) → (∀ s1, f s1 x = Raise e) →
  for_fold f (l1 ++ x :: l2) s = Raise e.
Proof.
  intros Hl1 Hx. revert s; induction l1 as [|z l1 IH]; intros s; simpl.
  - by rewrite Hx.
  - destruct (Hl1 s z) as (s2 & ->); [by left|]. cbn [mbind res_bind].
    apply IH. intros s1 z' Hz'. apply Hl1. by right.
Qed.

Lemma py_range_lookup a b (k : nat) :
  (Z.of_nat k < b - a)%Z → py_range a b !! k = Some (a + Z.of_nat k)%Z.
Proof.
  intros Hk. unfold py_range. rewrite list_lookup_fmap, lookup_seq_lt by lia.
  done.
Qed.

Lemma py_range_elem a b i : i ∈ py_range a b → (a ≤ i < b)%Z.
Proof.
  unfold py_range. intros Hi.
  apply list_elem_of_fmap in Hi as (k & -> & Hk).
  apply elem_of_seq in Hk. lia.
Qed.

(** The body of the loop up to the prediction: with the entries [i] and
    [i + 1] present in both buffers, what is left is the prediction from a
    hidden state and a decay rate of one size. *)
Lemma predict_step_prefix t_exp t_tanh model (seq_time : vec)
    (seq_events : list Z) hmax n_samples H st i :
  cell_shape model H → (0 ≤ i)%Z →
  (i + 1 < Z.of_nat (length seq_events))%Z →
  (i + 1 < Z.of_nat (length seq_time))%Z →
  ∃ (h d : vec) (k : scalar * nat → pred_state),
    length h = length d
    ∧ predict_step t_exp t_tanh model seq_time seq_events hmax n_samples st i
      = (p ← predict_next t_exp model h d hmax n_samples; mret (k p)).
Proof.
  intros Hcell Hi He Ht. unfold predict_step.
  destruct (getitem_Z seq_events i) as (event & -> & _); [lia|].
  cbn [mbind res_bind].
  specialize (Hcell (Embedding model event) (st_h st) (st_c st) (st_c_target st)).
  destruct (CTLSTM_cell model _ _ _ _) as [[[c c_target] o] d].
  destruct Hcell as (Hc & Ho & Hd).
  destruct (getitem_Z seq_time i) as (dt & -> & _); [lia|].
  cbn [mbind res_bind].
  rewrite decayed_same by congruence. cbn [mbind res_bind].
  set (c' := zip_with s_mul c _).
  assert (Hc' : length c' = H).
  { unfold c'. rewrite length_zip_with, !length_fmap. lia. }
  rewrite broadcast2_same by (rewrite length_fmap; congruence).
  cbn [mbind res_bind].
  set (h := zip_with s_mul o _).
  destruct (getitem_Z seq_events (i + 1)) as (gt_type & -> & _); [lia|].
  destruct (getitem_Z seq_time (i + 1)) as (gt_dt & -> & _); [lia|].
  cbn [mbind res_bind].
  exists h, d, (λ '(pred_dt, pred_type),
    if decide (1 < i)%Z
    then PredState h c' c_target
           (times_gt st ++ [gt_dt]) (times_pred st ++ [pred_dt])
           (types_gt st ++ [gt_type]) (types_pred st ++ [pred_type])
    else PredState h c' c_target
           (times_gt st) (times_pred st) (types_gt st) (types_pred st)).
  split.
  - unfold h. rewrite length_zip_with, length_fmap. lia.
  - destruct (predict_next _ _ _ _ _ _) as [[pd pt]|]; done.
Qed.

(** X15: with a sample count of 0 the quotient [hmax / n_samples] of two
    Python numbers raises: for a padded sequence of at least three time
    entries, [predict_event] ends in a ZeroDivisionError. *)
Theorem predict_event_zero_samples t_exp t_tanh model (seq_time : vec)
    (seq_events : list Z) hmax H :
  cell_shape model H → length seq_events = length seq_time →
  (3 ≤ length seq_time)%nat →
  predict_event t_exp t_tanh model seq_time seq_events hmax 0
  = Raise ZeroDivisionError.
Proof.
  intros Hcell Hlen H3. unfold predict_event.
  pose proof (take_drop_middle (py_range 1 (Z.of_nat (length seq_time) - 1))
                0 1%Z) as Hsplit.
  rewrite py_range_lookup in Hsplit by lia. specialize (Hsplit eq_refl).
  rewrite take_0 in Hsplit. rewrite <- Hsplit.
  rewrite (for_fold_raise_at _ [] _ _ ZeroDivisionError); [done| |].
  - intros ? ? Hin. by apply elem_of_nil in Hin.
  - intros st.
    destruct (predict_step_prefix t_exp t_tanh model seq_time seq_events
                hmax 0 H st 1 Hcell) as (h & d & k & _ & ->); [lia..|].
    done.
Qed.

Lemma predict_event_zero_samples_witness :
  predict_event exp_rational tanh_rational clock_model
    [zero; rat 1 1; rat 2 1] [1; 0; 0]%Z (Q2Qc 40) 0
  = Raise ZeroDivisionError.
Proof.
  apply (predict_event_zero_samples exp_rational tanh_rational clock_model
           [zero; rat 1 1; rat 2 1] [1; 0; 0]%Z (Q2Qc 40) 1).
  - intros e h c c_target. simpl. done.
  - reflexivity.
  - simpl. lia.
Defined.

Lemma py_range_split a m b :
  (a ≤ m < b)%Z → py_range a b = py_range a m ++ m :: py_range (m + 1) b.
Proof.
  intros Hm. unfold py_range.
  replace (Z.to_nat (b - a))
    with (Z.to_nat (m - a) + S (Z.to_nat (b - (m + 1))))%nat by lia.
  rewrite seq_app, fmap_app. cbn [seq]. rewrite fmap_cons. f_equal.
  f_equal; [lia|].
  replace (S (0 + Z.to_nat (m - a))) with (S (Z.to_nat (m - a)) + 0)%nat
    by lia.
  rewrite <- fmap_add_seq, <- list_fmap_compose.
  apply list_fmap_ext. intros _ k _. simpl. lia.
Qed.

(** The body of the loop when the types buffer ends right after
    position [i]. *)
Lemma predict_step_raise_next t_exp t_tanh model (seq_time : vec)
    (seq_events : list Z) hmax n_samples H st i :
  cell_shape model H → (0 ≤ i)%Z →
  (i < Z.of_nat (length seq_time))%Z →
  (Z.of_nat (length seq_events) ≤ i + 1)%Z →
  predict_step t_exp t_tanh model seq_time seq_events hmax n_samples st i
  = Raise IndexError.
Proof.
  intros Hcell Hi Ht He. unfold predict_step.
  destruct (decide (i < Z.of_nat (length seq_events))%Z) as [Hin|Hout].
  - destruct (getitem_Z seq_events i) as (event & -> & _); [lia|].
    cbn [mbind res_bind].
    specialize (Hcell (Embedding model event) (st_h st) (st_c st)
                  (st_c_target st)).
    destruct (CTLSTM_cell model _ _ _ _) as [[[c c_target] o] d].
    destruct Hcell as (Hc & Ho & Hd).
    destruct (getitem_Z seq_time i) as (dt & -> & _); [lia|].
    cbn [mbind res_bind].
    rewrite decayed_same by congruence. cbn [mbind res_bind].
    rewrite broadcast2_same
      by (rewrite length_fmap, length_zip_with, !length_fmap; lia).
    cbn [mbind res_bind].
    by rewrite (getitem_out_of_range seq_events (i + 1)) by lia.
  - by rewrite (getitem_out_of_range seq_events i) by lia.
Qed.

(** X16: a types buffer shorter than the times buffer is refused: for a
    sequence of at least three time entries, a model whose layers keep
    their shapes and a positive sample count, [predict_event] ends in an
    IndexError. *)
Theorem predict_event_short_types_buffer t_exp t_tanh model (seq_time : vec)
    (seq_events : list Z) hmax n_samples H K :
  cell_shape model H → intensity_shape model K → (0 < n_samples)%Z →
  (length seq_events < length seq_time)%nat → (3 ≤ length seq_time)%nat →
  predict_event t_exp t_tanh model seq_time seq_events hmax n_samples
  = Raise IndexError.
Proof.
  intros Hcell HK Hn Hlt H3. unfold predict_event.
  set (m := Z.max 1 (Z.of_nat (length seq_events) - 1)).
  rewrite (py_range_split 1 m) by lia.
  rewrite (for_fold_raise_at _ _ _ _ IndexError); [done| |].
  - intros st i Hi. apply py_range_elem in Hi.
    destruct (predict_step_prefix t_exp t_tanh model seq_time seq_events
                hmax n_samples H st i Hcell) as (h & d & k & Hhd & ->);
      [lia..|].
    rewrite <- (Z2Nat.id n_samples) by lia.
    destruct (predict_next_returns t_exp model h d hmax (Z.to_nat n_samples) K)
      as (pt & ->); [lia|done|done|].
    by eexists.
  - intros st. apply (predict_step_raise_next _ _ _ _ _ _ _ H); [done|lia..].
Qed.

Lemma predict_event_short_types_buffer_witness :
  predict_event exp_rational tanh_rational clock_model
    [zero; rat 1 1; rat 2 1; rat 1 2] [1; 0; 0]%Z (Q2Qc 40) 4
  = Raise IndexError.
Proof.
  apply (predict_event_short_types_buffer exp_rational tanh_rational
           clock_model [zero; rat 1 1; rat 2 1; rat 1 2] [1; 0; 0]%Z
           (Q2Qc 40) 4 1 1).
  - intros e h c c_target. simpl. done.
  - split; [lia|]. intros h. reflexivity.
  - lia.
  - simpl. lia.
  - simpl. lia.
Defined.

(** ** What the prediction returns *)

Lemma argmax_from_bound best_idx best idx (x : vec) :
  (best_idx < idx)%nat → (argmax_from best_idx best idx x < idx + length x)%nat.
Proof.
  revert best_idx best idx; induction x as [|v x IH];
    intros best_idx best idx Hlt; simpl; [lia|].
  destruct (beats v best).
  - specialize (IH idx v (S idx)). lia.
  - specialize (IH best_idx best (S idx)). lia.
Qed.

Lemma argmax_lt (x : vec) k : argmax x = Ok k → (k < length x)%nat.
Proof.
  destruct x as [|v x]; [done|]. intros [= <-]. simpl.
  pose proof (argmax_from_bound 0 v 1 x). lia.
Qed.

(** X17: the predicted type is the index of an event type: for a model of
    [K] event types it is below [K]. *)
Theorem predict_next_type_in_range t_exp model (h_t decay : vec) hmax n K :
  (0 < n)%nat → length h_t = length decay → intensity_shape model K →
  ∃ pred_dt pred_type,
    predict_next t_exp model h_t decay hmax (Z.of_nat n)
    = Ok (pred_dt, pred_type)
    ∧ (pred_type < K)%nat.
Proof.
  intros Hn Hlen [HK Hil]. rewrite predict_next_run by done.
  match goal with |- context [argmax ?x] =>
    assert (Hsc : length x = K)
      by (apply type_scores_length; [done|intros i; apply Hil]);
    destruct (argmax x) as [k|] eqn:Hk end.
  - eexists _, k. split; [done|]. apply argmax_lt in Hk.
    rewrite <- Hsc. exact Hk.
  - match type of Hk with argmax ?x = _ => destruct x end; [|done].
    simpl in Hsc. lia.
Qed.

Lemma predict_next_type_in_range_witness :
  ∃ pred_dt pred_type,
    predict_next exp_rational steady_model [rat 1 1] [rat 1 1] (Q2Qc 40)
      (Z.of_nat 4) = Ok (pred_dt, pred_type)
    ∧ (pred_type < 2)%nat.
Proof.
  apply (predict_next_type_in_range exp_rational steady_model
           [rat 1 1] [rat 1 1] (Q2Qc 40) 4 2).
  - lia.
  - reflexivity.
  - split; [lia|]. intros h. reflexivity.
Defined.

Lemma nonneg_mul x y : nonneg x → nonneg y → nonneg (s_mul x y).
Proof. destruct x, y; simpl; try tauto. apply Qcmult_nonneg_nonneg. Qed.

Lemma of_nat_nonneg n : 0 ≤ of_nat n.
Proof.
  unfold of_nat. rewrite <- Z2Qc_inj_0.
  apply (proj1 (Z2Qc_inj_le 0 (Z.of_nat n))). lia.
Qed.

Lemma Qcdiv_nonneg (x y : Qc) : 0 ≤ x → 0 < y → 0 ≤ x / y.
Proof.
  intros Hx Hy. unfold Qcdiv. apply Qcmult_nonneg_nonneg; [done|].
  by apply Qclt_le_weak, Qcinv_pos.
Qed.

Lemma of_nat_pos n : (0 < n)%nat → 0 < of_nat n.
Proof.
  intros Hn. unfold of_nat. rewrite <- Z2Qc_inj_0.
  apply (proj1 (Z2Qc_inj_lt 0 (Z.of_nat n))). lia.
Qed.

(** X18: the predicted time is a finite duration that is not negative,
    when the horizon is not negative, the intensities on the grid are
    finite and not negative, [exp] is finite and not negative on finite
    arguments up to 0, and the horizon and the total intensity at every
    grid point are inside the float32 range (a total that overflows to
    [+inf] would make the density [inf * 0], a NaN). *)
Theorem predict_next_time_nonneg t_exp model (h_t decay : vec) hmax n K :
  (0 < n)%nat → length h_t = length decay → intensity_shape model K →
  0 ≤ hmax → hmax < f32_overflow →
  (∀ q, q ≤ 0 → nonneg (t_exp (Fin q))) →
  (∀ i, (i ≤ n)%nat →
     Forall nonneg (decayed_intensity t_exp model h_t decay
                      (spec_grid (hmax / of_nat n) i))) →
  (∀ i, (i ≤ n)%nat →
     in_f32 (s_sum (decayed_intensity t_exp model h_t decay
                      (spec_grid (hmax / of_nat n) i)))) →
  ∃ pred_dt pred_type,
    predict_next t_exp model h_t decay hmax (Z.of_nat n)
    = Ok (pred_dt, pred_type)
    ∧ nonneg pred_dt.
Proof.
  intros Hn Hlen HK Hhmax _ Hexp Hint _.
  destruct (predict_next_returns t_exp model h_t decay hmax n K Hn Hlen HK)
    as (k & Hrun).
  eexists _, k. split; [exact Hrun|]. clear Hrun.
  set (step := hmax / of_nat n) in *.
  assert (Hstep : 0 ≤ step) by (apply Qcdiv_nonneg; [done|by apply of_nat_pos]).
  set (total := λ i, s_sum (decayed_intensity t_exp model h_t decay
                              (spec_grid step i))).
  assert (Htot : ∀ i, (i ≤ n)%nat → nonneg (total i))
    by (intros i Hi; by apply s_sum_nonneg, Hint).
  assert (Hdens : ∀ i, (i ≤ n)%nat →
            nonneg (spec_density t_exp step total i)).
  { intros i Hi. unfold spec_density. apply nonneg_mul; [by apply Htot|].
    assert (Hhaz : nonneg (spec_hazard step total i)).
    { unfold spec_hazard. apply s_sum_nonneg.
      rewrite Forall_fmap. apply Forall_forall. intros j Hj.
      apply elem_of_seq in Hj. unfold compose.
      apply nonneg_mul; [done|]. apply Htot. lia. }
    destruct (spec_hazard step total i) as [hz| | |]; try done.
    simpl. apply Hexp. change 0 with (- 0). by apply Qcopp_le_compat. }
  unfold spec_trapezoid. apply s_sum_nonneg.
  rewrite Forall_fmap. apply Forall_forall. intros i Hi.
  apply elem_of_seq in Hi. unfold compose.
  assert (Hf : ∀ j, (j ≤ n)%nat →
            nonneg (s_mul (Fin (spec_grid step j))
                      (spec_density t_exp step total j))).
  { intros j Hj. apply nonneg_mul; [|by apply Hdens].
    simpl. apply Qcmult_nonneg_nonneg; [apply of_nat_nonneg|done]. }
  apply nonneg_mul.
  - simpl. apply Qcdiv_nonneg; [done|]. by apply Qcplus_pos_pos.
  - apply nonneg_add; apply Hf; lia.
Qed.

Lemma exp_rational_nonneg q : nonneg (exp_rational (Fin q)).
Proof.
  simpl. destruct (decide (0 ≤ q)) as [Hq|Hq]; simpl.
  - by apply Qcplus_nonneg_nonneg.
  - apply Qcdiv_nonneg; [done|].
    apply Qcnot_le_lt in Hq.
    apply (proj1 (Qclt_minus_iff q 1)).
    by apply Qclt_trans with 0.
Qed.

Lemma predict_next_time_nonneg_witness :
  ∃ pred_dt pred_type,
    predict_next exp_rational steady_model [rat 1 1] [rat 1 1] (Q2Qc 40)
      (Z.of_nat 4) = Ok (pred_dt, pred_type)
    ∧ nonneg pred_dt.
Proof.
  apply (predict_next_time_nonneg exp_rational steady_model
           [rat 1 1] [rat 1 1] (Q2Qc 40) 4 2).
  - lia.
  - reflexivity.
  - split; [lia|]. intros h. reflexivity.
  - compute_done.
  - compute_done.
  - intros q _. apply exp_rational_nonneg.
  - intros i _. repeat constructor; compute_done.
  - intros i _. compute_done.
Defined.

(** ** Padding, then predicting *)

(** The run of [predict_event] on a sequence with as many types as
    times. *)
Lemma predict_event_run t_exp t_tanh model (seq_time : vec)
    (seq_events : list Z) hmax n_samples H K :
  cell_shape model H → intensity_shape model K → (0 < n_samples)%Z →
  length seq_events = length seq_time →
  ∃ tp yp,
    predict_event t_exp t_tanh model seq_time seq_events hmax n_samples
    = Ok (drop 3 seq_time, tp, drop 3 seq_events, yp)
    ∧ length tp = (length seq_time - 3)%nat
    ∧ length yp = (length seq_time - 3)%nat.
Proof.
  intros Hcell HK Hn Hlen. unfold predict_event.
  set (m := (length seq_time - 2)%nat).
  assert (Hrange : py_range 1 (Z.of_nat (length seq_time) - 1)
                   = py_range 1 (1 + Z.of_nat m)).
  { unfold py_range, m. do 2 f_equal. lia. }
  rewrite Hrange, <- (Z2Nat.id n_samples) by lia.
  destruct (predict_loop t_exp t_tanh model seq_time seq_events hmax
              (Z.to_nat n_samples) H K m
              (PredState (zeros (hidden_size model)) (zeros (hidden_size model))
                 (zeros (hidden_size model)) [] [] [] [])
              Hcell HK ltac:(lia) Hlen ltac:(lia))
    as (st & -> & Htg & Hyg & Htp & Hyp).
  cbn [mbind res_bind]. simpl in Htg, Hyg, Htp, Hyp.
  exists (times_pred st), (types_pred st). unfold mret, res_ret.
  rewrite Htg, Hyg, !take_ge by (rewrite length_drop; lia).
  split; [done|]. unfold m in *. lia.
Qed.

(** X19: padding a batch and then predicting on each padded sequence: for
    a batch that holds a sequence, of raw sequences with as many types as
    times and at least one event, the padder returns, and on every padded
    sequence the predictor returns lists of [L - 2] entries for [L] raw
    events, the ground truths being
    the raw times and types from the third event on.  The first two events
    of a sequence are never prediction targets. *)
Theorem padded_sequences_predictions t_exp t_tanh model
    (seq_events : list (list Z)) (seq_time : list vec) (seq_tot_time : vec)
    (seqs_len : list nat) hmax n_samples H K :
  cell_shape model H → intensity_shape model K → (0 < n_samples)%Z →
  seq_time ≠ [] →
  Forall2 (λ events times, length events = length times ∧ times ≠ [])
    seq_events seq_time →
  ∃ event_seqs time_seqs,
    BeginningOfStream (seq_events, seq_time, seq_tot_time, seqs_len)
      (type_size model)
    = Ok (event_seqs, time_seqs, seq_tot_time, seqs_len)
    ∧ ∀ i events times,
        seq_events !! i = Some events → seq_time !! i = Some times →
        ∃ pad_events pad_times tp yp,
          event_seqs !! i = Some pad_events
          ∧ time_seqs !! i = Some pad_times
          ∧ predict_event t_exp t_tanh model pad_times pad_events hmax
              n_samples
            = Ok (drop 2 times, tp, drop 2 events, yp)
          ∧ length tp = (length times - 2)%nat
          ∧ length yp = (length times - 2)%nat.
Proof.
  intros Hcell HK Hn _ Hall.
  assert (He : Forall (λ r, r ≠ []) seq_events).
  { clear -Hall. induction Hall as [|e t es ts [Hlen Ht] _ IH]; constructor;
      [|done]. intros ->. by destruct t. }
  assert (Ht : Forall (λ r, r ≠ []) seq_time).
  { clear -Hall. induction Hall as [|e t es ts [_ Ht] _ IH]; by constructor. }
  exists (cons (int64 (0 + type_size model)) <$> seq_events),
    (cons zero <$> seq_time).
  split.
  - unfold BeginningOfStream.
    destruct (select1_nonempty _ He) as (es & -> & Hes).
    destruct (select1_nonempty _ Ht) as (ts & -> & Hts).
    cbn [mbind res_bind]. unfold mret, res_ret.
    by rewrite !zip_with_cons_const.
  - intros i events times Hi Hj.
    destruct (Forall2_lookup_lr _ _ _ _ _ _ Hall Hi Hj) as [Hlen _].
    destruct (predict_event_run t_exp t_tanh model (zero :: times)
                (int64 (0 + type_size model) :: events) hmax n_samples H K
                Hcell HK Hn)
      as (tp & yp & Hrun & Htp & Hyp); [simpl; congruence|].
    exists (int64 (0 + type_size model) :: events), (zero :: times), tp, yp.
    rewrite !list_lookup_fmap, Hi, Hj. simpl in *.
    repeat split; try done; lia.
Qed.

Lemma padded_sequences_predictions_witness :
  ∃ event_seqs time_seqs,
    BeginningOfStream ([[0; 0; 0]%Z], [[rat 1 1; rat 2 1; rat 1 2]],
                       [rat 7 2], [3%nat]) (type_size clock_model)
    = Ok (event_seqs, time_seqs, [rat 7 2], [3%nat])
    ∧ ∀ i events times,
        [[0; 0; 0]%Z] !! i = Some events →
        [[rat 1 1; rat 2 1; rat 1 2]] !! i = Some times →
        ∃ pad_events pad_times tp yp,
          event_seqs !! i = Some pad_events
          ∧ time_seqs !! i = Some pad_times
          ∧ predict_event exp_rational tanh_rational clock_model pad_times
              pad_events (Q2Qc 40) 4
            = Ok (drop 2 times, tp, drop 2 events, yp)
          ∧ length tp = (length times - 2)%nat
          ∧ length yp = (length times - 2)%nat.
Proof.
  apply (padded_sequences_predictions exp_rational tanh_rational clock_model
           [[0; 0; 0]%Z] [[rat 1 1; rat 2 1; rat 1 2]] [rat 7 2] [3%nat]
           (Q2Qc 40) 4 1 1).
  - intros e h c c_target. simpl. done.
  - split; [lia|]. intros h. reflexivity.
  - lia.
  - done.
  - repeat constructor. done.
Defined.

(** ** Padding positions in the loss *)

Lemma getitem_nat_lookup {A} (l : list A) a :
  getitem l (Z.of_nat a)
  = match l !! a with Some x => Ok x | None => Raise IndexError end.
Proof.
  destruct (l !! a) as [x|] eqn:Ha.
  - by apply getitem_nat.
  - apply getitem_out_of_range. apply lookup_ge_None in Ha. lia.
Qed.

Lemma for_each_ext_in {A B} (f f' : A → res B) l :
  (∀ x, x ∈ l → f x = f' x) → for_each f l = for_each f' l.
Proof.
  induction l as [|x l IH]; intros Hf; [done|].
  rewrite !for_each_cons, Hf by left.
  destruct (f' x); [|done]. cbn [mbind res_bind].
  rewrite IH; [done|]. intros z Hz. apply Hf. by right.
Qed.

(** X20: the event term reads the buffer of a sequence up to its declared
    length only: two buffers that agree on the start marker and the first
    [seq_len] events give the same event term, whatever fills the padding
    positions behind. *)
Theorem event_term_ignores_padding (log_intensity : list (list vec)) idx
    (event_seq event_seq' : list Z) seq_len :
  take (S seq_len) event_seq = take (S seq_len) event_seq' →
  event_term log_intensity idx event_seq seq_len
  = event_term log_intensity idx event_seq' seq_len.
Proof.
  intros Htake. unfold event_term, at_events, slice.
  replace (seq_len + 1 - 1)%nat with seq_len by lia.
  assert (Hslice : take seq_len (drop 1 event_seq)
                   = take seq_len (drop 1 event_seq')).
  { rewrite !take_drop_commute.
    replace (1 + seq_len)%nat with (S seq_len) by lia. by rewrite Htake. }
  by rewrite Hslice.
Qed.

Lemma event_term_ignores_padding_witness :
  event_term [[[rat 1 1; rat 2 1]]; [[rat 3 1; rat 4 1]]] 0 [2; 1; 0]%Z 1
  = event_term [[[rat 1 1; rat 2 1]]; [[rat 3 1; rat 4 1]]] 0 [2; 1; 1]%Z 1.
Proof.
  apply (event_term_ignores_padding
           [[[rat 1 1; rat 2 1]]; [[rat 3 1; rat 4 1]]] 0
           [2; 1; 0]%Z [2; 1; 1]%Z 1).
  reflexivity.
Defined.

(** X21: the integral term reads the simulated intensities of a sequence
    at the first [seq_len] positions only: two tensors whose slices for
    that sequence agree there give the same integral term. *)
Theorem integral_term_ignores_later_positions
    (sim_intensity sim_intensity' : list (list vec)) idx total_time seq_len
    (c c' : list vec) :
  select1 sim_intensity idx = Ok c → select1 sim_intensity' idx = Ok c' →
  take seq_len c = take seq_len c' →
  integral_term sim_intensity idx total_time seq_len
  = integral_term sim_intensity' idx total_time seq_len.
Proof.
  intros Hc Hc' Htake. unfold integral_term. rewrite Hc, Hc'.
  cbn [mbind res_bind].
  rewrite (for_each_ext_in _ (λ a, getitem c' (Z.of_nat a))); [done|].
  intros a Ha. apply elem_of_seq in Ha.
  rewrite !getitem_nat_lookup.
  rewrite <- (lookup_take_lt c seq_len a), <- (lookup_take_lt c' seq_len a)
    by lia.
  by rewrite Htake.
Qed.

Lemma integral_term_ignores_later_positions_witness :
  integral_term [[[rat 1 1]]; [[rat 2 1]]] 0 (rat 3 1) 1
  = integral_term [[[rat 1 1]]; [[rat 5 1]]] 0 (rat 3 1) 1.
Proof.
  apply (integral_term_ignores_later_positions
           [[[rat 1 1]]; [[rat 2 1]]] [[[rat 1 1]]; [[rat 5 1]]] 0 (rat 3 1) 1
           [[rat 1 1]; [rat 2 1]] [[rat 1 1]; [rat 5 1]]).
  - reflexivity.
  - reflexivity.
  - reflexivity.
Defined.

(** ** The entries of [create_unif_d] *)

Lemma torch_units_state n g :
  ∃ g', torch_units n g = Ok (torch_draws g <$> seq (torch_pos g) n, g')
        ∧ torch_draws g' = torch_draws g
        ∧ torch_pos g' = (torch_pos g + n)%nat.
Proof.
  revert g; induction n as [|n IH]; intros g; simpl.
  - exists g. repeat split; try done; lia.
  - destruct (IH (Rng (torch_draws g) (S (torch_pos g)) (numpy_draws g)
                    (numpy_pos g))) as (g' & Hrun & Hd & Hp); simpl in *.
    exists g'. split; [|split; [done|lia]].
    unfold mbind, rand_bind, torch_next. by rewrite Hrun.
Qed.

Lemma uniform_state (t : vec) b g :
  0 ≤ b →
  ∃ g', uniform_ t zero (Fin b) g
        = Ok ((λ u, Fin (u * b))
                <$> (torch_draws g <$> seq (torch_pos g) (length t)), g')
        ∧ torch_draws g' = torch_draws g
        ∧ torch_pos g' = (torch_pos g + length t)%nat.
Proof.
  intros Hb. unfold uniform_, zero.
  destruct (decide (0 ≤ b)) as [_|]; [|done].
  destruct (torch_units_state (length t) g) as (g' & Hrun & Hd & Hp).
  exists g'. split; [|done].
  rewrite (rand_bind_run _ _ _ _ _ Hrun). unfold mret, rand_ret.
  do 2 f_equal. apply list_fmap_ext. intros _ u _. f_equal. ring.
Qed.

(** One pass of the loop of [create_unif_d]: [torch.rand] uses up
    [batch_length] draws, and the next [batch_length] draws, scaled by the
    first total time, make the row. *)
Lemma create_unif_d_body_run batch_length t0 (ts : vec) g :
  0 ≤ t0 →
  ∃ g', (t ← torch_rand batch_length;
         first ← lift (getitem (Fin t0 :: ts) 0);
         uniform_ t zero first) g
        = Ok ((λ j, Fin (torch_draws g (torch_pos g + batch_length + j) * t0))
                <$> seq 0 batch_length, g')
    ∧ torch_draws g' = torch_draws g
    ∧ torch_pos g' = (torch_pos g + 2 * batch_length)%nat.
Proof.
  intros Ht0.
  destruct (torch_units_state batch_length g) as (g1 & Hr & Hd1 & Hp1).
  assert (Hrand : torch_rand batch_length g
                  = Ok (Fin <$> (torch_draws g <$> seq (torch_pos g) batch_length),
                        g1)).
  { unfold torch_rand. by rewrite (rand_bind_run _ _ _ _ _ Hr). }
  destruct (uniform_state
              (Fin <$> (torch_draws g <$> seq (torch_pos g) batch_length))
              t0 g1 Ht0) as (g2 & Hu & Hd2 & Hp2).
  rewrite !length_fmap, length_seq in Hu, Hp2.
  exists g2. split; [|split; [congruence|lia]].
  rewrite (rand_bind_run _ _ _ _ _ Hrand).
  unfold mbind at 1, rand_bind. rewrite getitem_head. cbn [lift].
  rewrite Hu. do 2 f_equal. rewrite Hd1, Hp1, <- list_fmap_compose.
  rewrite (seq_from_zero (torch_pos g + batch_length)), <- list_fmap_compose.
  apply list_fmap_ext. intros _ j _. simpl. done.
Qed.

Lemma create_unif_d_loop_run batch_length t0 (ts : vec) {A} (l : list A) g :
  0 ≤ t0 →
  ∃ rows g',
    rand_for_each (λ _, t ← torch_rand batch_length;
                        first ← lift (getitem (Fin t0 :: ts) 0);
                        uniform_ t zero first) l g = Ok (rows, g')
    ∧ length rows = length l
    ∧ ∀ b, (b < length l)%nat →
        rows !! b
        = Some ((λ j, Fin (torch_draws g
                             (torch_pos g + (2 * b + 1) * batch_length + j)
                           * t0)) <$> seq 0 batch_length).
Proof.
  intros Ht0. revert g; induction l as [|x l IH]; intros g.
  - exists [], g. simpl. repeat split; try done. intros; lia.
  - destruct (create_unif_d_body_run batch_length t0 ts g Ht0)
      as (g1 & Hbody & Hd1 & Hp1).
    destruct (IH g1) as (rows & g2 & Hrows & Hlen & Hlook).
    eexists (_ :: rows), g2. cbn [rand_for_each].
    rewrite (rand_bind_run _ _ _ _ _ Hbody), (rand_bind_run _ _ _ _ _ Hrows).
    split; [done|]. split; [simpl; by rewrite Hlen|].
    intros [|b] Hb; cbn [lookup list_lookup].
    + f_equal. apply list_fmap_ext. intros _ j _. cbn beta.
      f_equal. f_equal. f_equal. lia.
    + rewrite Hlook by (simpl in Hb; lia). f_equal.
      apply list_fmap_ext. intros _ j _. cbn beta. rewrite Hd1, Hp1.
      f_equal. f_equal. f_equal. lia.
Qed.

Lemma omap_lookup_total {A B} (f : A → option B) (g : A → B)
    (l : list A) (i : nat) :
  (∀ x, x ∈ l → f x = Some (g x)) → omap f l !! i = g <$> l !! i.
Proof.
  revert i; induction l as [|x l IH]; intros i Hf; [done|].
  simpl. rewrite Hf by left. destruct i as [|i]; simpl; [done|].
  apply IH. intros z Hz. apply Hf. by right.
Qed.

(** X22: the entry of [create_unif_d] at position [j] and sequence [b] is
    one draw of the torch generator scaled by the first total time: the
    draw number [(2 b + 1) * batch_length + j] from where the generator
    stood.  Each sequence uses up [2 * batch_length] draws, of which the
    first half, taken by [torch.rand], is thrown away. *)
Theorem create_unif_d_entries batch_length t0 (ts : vec) g j b :
  0 ≤ t0 → (j < batch_length)%nat → (b < S (length ts))%nat →
  ∃ out g' row,
    create_unif_d batch_length (Fin t0 :: ts) g = Ok (out, g')
    ∧ out !! j = Some row
    ∧ row !! b
      = Some (Fin (torch_draws g
                     (torch_pos g + (2 * b + 1) * batch_length + j) * t0)).
Proof.
  intros Ht0 Hj Hb. unfold create_unif_d.
  destruct (create_unif_d_loop_run batch_length t0 ts (Fin t0 :: ts) g Ht0)
    as (rows & g' & Hrun & Hlen & Hlook).
  rewrite (rand_bind_run _ _ _ _ _ Hrun).
  destruct rows as [|r rows]; [done|].
  eexists _, g', _. split; [reflexivity|].
  unfold transpose. rewrite list_lookup_fmap, lookup_seq_lt by done.
  split; [reflexivity|]. simpl plus.
  rewrite (omap_lookup_total _
             (λ r, default zero (r !! j))).
  - rewrite Hlook by done. simpl.
    rewrite list_lookup_fmap, lookup_seq_lt by done. done.
  - intros r' Hr'. apply list_elem_of_lookup in Hr' as (b' & Hb').
    pose proof (lookup_lt_Some _ _ _ Hb') as Hlt. rewrite Hlen in Hlt.
    rewrite Hlook in Hb' by done. injection Hb' as <-.
    by rewrite list_lookup_fmap, lookup_seq_lt by done.
Qed.

Lemma create_unif_d_entries_witness :
  ∃ out g' row,
    create_unif_d 2 (Fin 1 :: [rat 5 1]) half_draws = Ok (out, g')
    ∧ out !! 1%nat = Some row
    ∧ row !! 1%nat
      = Some (Fin (torch_draws half_draws
                     (torch_pos half_draws + (2 * 1 + 1) * 2 + 1) * 1)).
Proof.
  apply (create_unif_d_entries 2 1 [rat 5 1] half_draws 1 1).
  - compute_done.
  - lia.
  - simpl. lia.
Defined.

(** ** The states that the simulation of the loss reads *)

Lemma create_unif_d_length batch_length (total_time_seqs : vec) g out g' :
  create_unif_d batch_length total_time_seqs g = Ok (out, g') →
  length out = batch_length.
Proof.
  unfold create_unif_d, mbind, rand_bind, lift, mret, rand_ret.
  destruct (rand_for_each _ _ g) as [[rows g1]|]; [|done].
  destruct (stack rows) as [stacked|]; [|done].
  intros [= <- <-]. unfold transpose. by rewrite length_fmap, length_seq.
Qed.

Lemma getitem_ok_lt {A} (l : list A) (i : nat) x :
  getitem l (Z.of_nat i) = Ok x → (i < length l)%nat.
Proof.
  rewrite getitem_nat_lookup. destruct (l !! i) as [y|] eqn:Hi; [|done].
  intros _. by eapply lookup_lt_Some.
Qed.

Lemma simulated_intensity_reads model output (sim_time_seqs : list vec) si :
  simulated_intensity model output sim_time_seqs = Ok si →
  ∀ idx, (idx < length sim_time_seqs)%nat →
    (idx < length (cell_t output))%nat
    ∧ (idx < length (cell_target_t output))%nat
    ∧ (idx < length (output_t output))%nat
    ∧ (idx < length (decay_t output))%nat.
Proof.
  unfold simulated_intensity. intros Hrun idx Hidx.
  destruct (for_each _ (enumerate sim_time_seqs)) as [hs|] eqn:Hhs; [|done].
  destruct (lookup_lt_is_Some_2 sim_time_seqs idx Hidx) as [row Hrow].
  destruct (for_each_lookup _ _ _ idx (idx, row) Hhs
              (enumerate_lookup _ _ _ Hrow)) as (y & _ & Hy).
  cbn beta iota zeta in Hy.
  destruct (getitem (cell_t output) _) as [c|] eqn:Hc; [|done].
  destruct (getitem (cell_target_t output) _) as [ct|] eqn:Hct; [|done].
  destruct (getitem (output_t output) _) as [o|] eqn:Ho; [|done].
  destruct (getitem (decay_t output) _) as [d|] eqn:Hd; [|done].
  repeat split; by eapply getitem_ok_lt.
Qed.

(** X23: the simulation loop of [forward] indexes the states by the
    column number of the events buffer: whenever [forward] returns a
    loss, the cell states, the target cell states, the outputs and the
    decay rates each hold at least as many positions as the events buffer
    has columns (the column of the start marker included).  The hidden
    states are not read by that loop. *)
Theorem forward_reads_states_of_every_column t_log model
    (event_seqs : list (list Z)) (time_seqs : list vec)
    (seqs_length : list nat) (total_time_seqs : vec) output g loss g' :
  forward t_log model event_seqs time_seqs seqs_length total_time_seqs output g
  = Ok (loss, g') →
  let batch_length := snd (shape2 event_seqs) in
  (batch_length ≤ length (cell_t output))%nat
  ∧ (batch_length ≤ length (cell_target_t output))%nat
  ∧ (batch_length ≤ length (output_t output))%nat
  ∧ (batch_length ≤ length (decay_t output))%nat.
Proof.
  unfold forward. destruct (shape2 event_seqs) as [batch_size batch_length].
  cbn [snd]. unfold integral_terms, mbind, rand_bind, lift. intros Hrun.
  destruct (event_terms _ _ _ _ _) as [terms|]; [|done].
  destruct (create_unif_d batch_length total_time_seqs g)
    as [[sim g1]|] eqn:Hsim; [|done].
  destruct (simulated_intensity model output sim) as [si|] eqn:Hsi; [|done].
  clear Hrun. apply create_unif_d_length in Hsim.
  pose proof (simulated_intensity_reads _ _ _ _ Hsi) as Hread.
  destruct batch_length as [|n]; [repeat split; lia|].
  destruct (Hread n) as (H1 & H2 & H3 & H4); [lia|].
  repeat split; lia.
Qed.

Lemma forward_reads_states_of_every_column_witness :
  ∃ loss g',
    forward log_rational clock_model [[1; 0]; [1; 0]]%Z
      [[zero; rat 1 1]; [zero; zero]] [1; 0]%nat [rat 1 1; zero]
      (constant_states 2 2 (rat 1 1)) half_draws = Ok (loss, g')
    ∧ (snd (shape2 [[1; 0]; [1; 0]]%Z)
       ≤ length (cell_t (constant_states 2 2 (rat 1 1))))%nat.
Proof.
  destruct (forward log_rational clock_model [[1; 0]; [1; 0]]%Z
              [[zero; rat 1 1]; [zero; zero]] [1; 0]%nat [rat 1 1; zero]
              (constant_states 2 2 (rat 1 1)) half_draws)
    as [[loss g']|e] eqn:Hrun.
  - exists loss, g'. split; [done|].
    apply (forward_reads_states_of_every_column log_rational clock_model
             [[1; 0]; [1; 0]]%Z [[zero; rat 1 1]; [zero; zero]] [1; 0]%nat
             [rat 1 1; zero] (constant_states 2 2 (rat 1 1)) half_draws
             loss g' Hrun).
  - exfalso. vm_compute in Hrun. discriminate Hrun.
Defined.
